(** * vivaldi-color-tabs: favicon palette extraction and tab colouring

    A shallow embedding of the three variants of the [color_tabs] script
    ([src/color_tabs.js], [src/unnamed/part_000], [src/unnamed/part_001])
    and the properties of their palette extractor, theme resolver and
    style applier. *)

From stdpp Require Import base strings gmap pretty.
From Stdlib Require Import String ZArith QArith Bool Lia List.
From Stdlib Require Import Sorting.Sorted Sorting.Permutation.
Import ListNotations.

Local Open Scope Z_scope.

(* ================================================================== *)
(** ** Palette extractor ([#getPalette], identical in the three files) *)
(* ================================================================== *)

(** An [[r, g, b]] array, as [#getPalette] returns them. *)
Definition rgb : Type := (Z * Z * Z)%type.

(** An element [[red, green, blue, count]] of [colorPalette]. *)
Record PaletteEntry : Type := mkEntry {
  e_red : Z;
  e_green : Z;
  e_blue : Z;
  e_count : Z
}.

Definition entryColor (e : PaletteEntry) : rgb := (e_red e, e_green e, e_blue e).

Definition rgb_eqb (c d : rgb) : bool :=
  let '(r1, g1, b1) := c in
  let '(r2, g2, b2) := d in
  (r1 =? r2) && (g1 =? g2) && (b1 =? b2).

(** [pixelData[i]] of the [Uint8ClampedArray] read from the canvas.  The
    buffer of an [ImageData] has length [4 * width * height], so the reads of
    the loop below are always in range and the default is never used. *)
Definition byteAt (pixelData : list Z) (i : nat) : Z := nth i pixelData 0.

(** [red], [green], [blue] of the pixel at [pixelIndex]:
    [offset = 4 * pixelIndex], [pixelData[offset .. offset + 2]]. *)
Definition pixelAt (pixelData : list Z) (pixelIndex : nat) : rgb :=
  let offset := (4 * pixelIndex)%nat in
  (byteAt pixelData offset,
   byteAt pixelData (offset + 1)%nat,
   byteAt pixelData (offset + 2)%nat).

(** The filter of the loop body, negated in the source:
    [red === 0 || red > 240 && green > 240 && blue > 240]. *)
Definition skipped (p : rgb) : bool :=
  let '(red, green, blue) := p in
  (red =? 0) || ((red >? 240) && (green >? 240) && (blue >? 240)).

(** The inner [for] loop: the first index whose entry has the pixel's exact
    channels, starting the count at [colorIndexIterator]; [None] is the
    [undefined] that [colorIndex] keeps when the loop ends without [break]. *)
Fixpoint findColorIndex (p : rgb) (colorPalette : list PaletteEntry)
    (colorIndexIterator : nat) : option nat :=
  match colorPalette with
  | [] => None
  | currentColor :: rest =>
      if rgb_eqb p (entryColor currentColor) then Some colorIndexIterator
      else findColorIndex p rest (S colorIndexIterator)
  end.

(** [colorPalette[colorIndex][3]++]. *)
Fixpoint incrementAt (colorIndex : nat) (colorPalette : list PaletteEntry)
    : list PaletteEntry :=
  match colorPalette, colorIndex with
  | [], _ => []
  | e :: rest, O =>
      mkEntry (e_red e) (e_green e) (e_blue e) (e_count e + 1) :: rest
  | e :: rest, S i => e :: incrementAt i rest
  end.

(** The part of the loop body guarded by the filter: push a new entry with
    count 1, or increment the entry found. *)
Definition countPixel (colorPalette : list PaletteEntry) (p : rgb)
    : list PaletteEntry :=
  match findColorIndex p colorPalette 0 with
  | None => let '(red, green, blue) := p in
            colorPalette ++ [mkEntry red green blue 1]
  | Some colorIndex => incrementAt colorIndex colorPalette
  end.

(** One iteration of the outer loop. *)
Definition visitPixel (colorPalette : list PaletteEntry) (p : rgb)
    : list PaletteEntry :=
  if negb (skipped p) then countPixel colorPalette p else colorPalette.

(** The pixels the outer loop reads, in order:
    [pixelIndex = 0 .. pixelCount - 1] with [pixelCount = length / 4], the
    length being a multiple of 4. *)
Definition pixelsOf (pixelData : list Z) : list rgb :=
  let pixelCount := (length pixelData / 4)%nat in
  map (pixelAt pixelData) (seq 0 pixelCount).

(** [colorPalette] when the outer loop ends. *)
Definition scanPixels (pixelData : list Z) : list PaletteEntry :=
  fold_left visitPixel (pixelsOf pixelData) [].

(** The comparator of the sort: [(a, b) => b[3] - a[3]]. *)
Definition compareFn (a b : PaletteEntry) : Z := e_count b - e_count a.

(** [Array.prototype.sort] is stable (ECMAScript 2019), so with a consistent
    comparator its result is the stable insertion sort of the array: an
    element moves in front of the elements after it that the comparator puts
    strictly behind it, and of no other. [insertEntry x l] places [x], which
    came before every element of [l] in the array, into the sorted [l]. *)
Fixpoint insertEntry (x : PaletteEntry) (l : list PaletteEntry)
    : list PaletteEntry :=
  match l with
  | [] => [x]
  | y :: rest =>
      if compareFn y x <? 0 then y :: insertEntry x rest else x :: y :: rest
  end.

Definition sortPalette (l : list PaletteEntry) : list PaletteEntry :=
  fold_right insertEntry [] l.

(** [#getPalette], from the pixel buffer of the favicon drawn on the canvas:
    scan, sort, [slice(0, Math.min(10, length))], drop the counts. *)
Definition getPalette (pixelData : list Z) : list rgb :=
  let colorPalette := sortPalette (scanPixels pixelData) in
  let topColors :=
    firstn (Nat.min 10 (length colorPalette)) colorPalette in
  map (fun color => (e_red color, e_green color, e_blue color)) topColors.

(* ------------------------------------------------------------------ *)
(** *** Occurrences, first encounters and recorded counts               *)
(* ------------------------------------------------------------------ *)

(** The colours of a palette under construction, in array order. *)
Definition colorsOf (colorPalette : list PaletteEntry) : list rgb :=
  map entryColor colorPalette.

(** The pixels that pass the filter, in scan order. *)
Definition qualifying (pixels : list rgb) : list rgb :=
  filter (fun p => negb (skipped p)) pixels.

(** How many of the pixels have exactly the colour [c]. *)
Definition occurrences (c : rgb) (pixels : list rgb) : Z :=
  Z.of_nat (length (filter (rgb_eqb c) pixels)).

(** The pixel index at which the colour [c] is first met (the number of
    pixels when it never is). *)
Fixpoint firstIndex (c : rgb) (pixels : list rgb) : nat :=
  match pixels with
  | [] => O
  | p :: rest => if rgb_eqb c p then O else S (firstIndex c rest)
  end.

(** The distinct colours among the pixels that pass the filter. *)
Definition rgb_eq_dec (c d : rgb) : {c = d} + {c <> d}.
Proof. repeat decide equality. Defined.

Definition distinctQualifying (pixels : list rgb) : list rgb :=
  nodup rgb_eq_dec (qualifying pixels).

(** The count recorded for the colour [c] (0 when it has no entry). *)
Fixpoint countOf (c : rgb) (colorPalette : list PaletteEntry) : Z :=
  match colorPalette with
  | [] => 0
  | e :: rest => if rgb_eqb c (entryColor e) then e_count e else countOf c rest
  end.

(** The sum of the recorded counts. *)
Definition totalCount (colorPalette : list PaletteEntry) : Z :=
  fold_right (fun e acc => e_count e + acc) 0 colorPalette.

(** The order of the returned palette: more frequent first, and among equally
    frequent colours the one first met earlier in the scan. *)
Definition ranksBefore (pixels : list rgb) (c d : rgb) : Prop :=
  occurrences c pixels > occurrences d pixels \/
  (occurrences c pixels = occurrences d pixels /\
   (firstIndex c pixels < firstIndex d pixels)%nat).

(* ================================================================== *)
(** ** The host: chroma.js, the theme, the tab strip                   *)
(* ================================================================== *)

(** The part of chroma.js the scripts call.  The library is not part of the
    repository: the scripts are modelled over any implementation of it.
    JavaScript numbers are exact rationals here; the products by 0 and by 1
    and the comparison with a literal, which the properties below rest on,
    round nothing.  [chroma(text)] throws for a text it cannot parse, the
    empty string of an unset property included: [chroma_valid] tells whether
    it returns, and [chroma_css] is its value when it does.  The literals
    ['#FFF'] and ['#000'] and the accent colour of a stored theme are texts
    it parses. *)
Class Chroma : Type := {
  Color : Type;
  chroma_rgb : rgb -> Color;          (* chroma([r, g, b]) *)
  chroma_valid : string -> bool;      (* chroma(cssText) does not throw *)
  chroma_css : string -> Color;       (* chroma('#FFF'), chroma(cssText) *)
  get_hsl_s : Color -> Q;             (* color.get('hsl.s') *)
  set_hsl_s : Color -> Q -> Color;    (* color.set('hsl.s', value) *)
  luminance : Color -> Q;             (* color.luminance() *)
  darken : Color -> Q -> Color;       (* color.darken(amount) *)
  alpha : Color -> Q -> Color;        (* color.alpha(value) *)
  css : Color -> string               (* color.css() *)
}.

(** [x > y] on numbers; the literal [0.4] of the scripts is read as 2/5. *)
Definition Qgtb (x y : Q) : bool := negb (Qle_bool x y).

(** A [CSSStyleDeclaration] holding custom properties (the inline style of
    [#browser]). *)
Abbreviation StyleProps := (gmap string string).

(** [style.getPropertyValue(property)]: the empty string when unset. *)
Definition getPropertyValue (property : string) (style : StyleProps) : string :=
  match style !! property with
  | Some v => v
  | None => EmptyString
  end.

(** A [div.tab] of the tab strip, with what the scripts read and write. *)
Record Tab : Type := mkTab {
  (** [tab.classList.contains('active')] *)
  tab_active : bool;
  (** the pixel buffer that [getImageData] gives for
      [tab.querySelector('img')]; [None] when the tab has no [img] *)
  tab_img : option (list Z);
  (** the [url] of the chrome tab that [data-id] resolves to; [None] when
      the lookup yields no tab *)
  tab_chromeTabUrl : option string;
  (** [tab.style.backgroundColor]; [None] when the property is unset *)
  style_backgroundColor : option string;
  (** [tab.style.color]; [None] when the property is unset *)
  style_color : option string
}.

(** [tab.style.backgroundColor = v]; assigning [null] removes the
    declaration. *)
Definition set_backgroundColor (v : option string) (tab : Tab) : Tab :=
  mkTab (tab_active tab) (tab_img tab) (tab_chromeTabUrl tab) v (style_color tab).

(** [tab.style.color = v]. *)
Definition set_color (v : option string) (tab : Tab) : Tab :=
  mkTab (tab_active tab) (tab_img tab) (tab_chromeTabUrl tab)
        (style_backgroundColor tab) v.

(** The theme object that [#getCurrentTheme] resolves to. *)
Record Theme : Type := mkTheme {
  accentFromPage : bool;
  transparencyTabs : bool;
  accentOnWindow : bool;
  colorAccentBg : string;
  accentSaturationLimit : Q
}.

(** What an awaited call or a callback gives: a value, or an exception. *)
Inductive Fallible (A : Type) : Type :=
  | Value (a : A)
  | Thrown.
Arguments Value {A} a.
Arguments Thrown {A}.

(** How a call of [#setTabColor] ends: it ran to its end with the style of
    [#browser] and the tab as given, it left through an early [return] before
    any write, its promise was rejected before any write (an exception in an
    [async] call), or it threw before any write (an exception in the
    synchronous call of color_tabs.js). *)
Inductive Outcome : Type :=
  | Completed (browser : StyleProps) (tab : Tab)
  | Returned
  | Rejected
  | Threw.

(** The call ran to its end, leaving [#browser] and the tab as given. *)
Definition completed (written : StyleProps * Tab) : Outcome :=
  let '(browser, tab) := written in Completed browser tab.

(** [tabs.forEach(tab => setTabColor(tab))]: the calls share the style of
    [#browser], each writes its own tab, and a call that wrote nothing leaves
    its tab as it was.  An exception thrown by the callback leaves [forEach],
    so the tabs after it are not visited.  In color_tabs.js the calls are
    synchronous and run in the order of the strip.  In part_000 and part_001
    they are [async] and not awaited: each writes once its own tab lookup has
    settled, in an order that the host decides, of which the order of the
    strip taken here is one. *)
Fixpoint forEachTab (f : Tab -> StyleProps -> Outcome) (tabs : list Tab)
    (browser : StyleProps) : StyleProps * list Tab :=
  match tabs with
  | [] => (browser, [])
  | tab :: rest =>
      match f tab browser with
      | Completed browser' tab' =>
          let '(browser'', rest') := forEachTab f rest browser' in
          (browser'', tab' :: rest')
      | Returned | Rejected =>
          let '(browser'', rest') := forEachTab f rest browser in
          (browser'', tab :: rest')
      | Threw => (browser, tab :: rest)
      end
  end.

Section Scripts.
Context `{Ch : Chroma}.

Definition WHITE : Color := chroma_css "#FFF".
Definition BLACK : Color := chroma_css "#000".

(** [#setColor(property, color)]. *)
Definition setColor (property : string) (color : Color) (browser : StyleProps)
    : StyleProps :=
  <[property := css color]> browser.

End Scripts.

(* ================================================================== *)
(** ** [src/unnamed/part_000]: theme-aware, with internal pages         *)
(* ================================================================== *)

Module Part000.
Section Script.
Context `{Ch : Chroma}.

Definition INTERNAL_PAGES : list string :=
  ["chrome://"; "vivaldi://"; "devtools://"; "chrome-extension://"]%string.

(** [INTERNAL_PAGES.some((p) => url.startsWith(p))]. *)
Definition isInternalPage (url : string) : bool :=
  existsb (fun p => String.prefix p url) INTERNAL_PAGES.

Definition isTabActive (tab : Tab) : bool := tab_active tab.

Definition setAccentColors (colorAccentBg colorAccentFg : Color)
    (isBright : bool) (browser : StyleProps) : StyleProps :=
  let browser := setColor "--colorAccentBg" colorAccentBg browser in
  let browser := setColor "--colorAccentBgDark" (darken colorAccentBg 0.4) browser in
  let browser := setColor "--colorAccentBgDarker" (darken colorAccentBg 1) browser in
  let browser := setColor "--colorAccentBgAlpha"
                   (alpha colorAccentBg (if isBright then 0.45 else 0.55)) browser in
  let browser := setColor "--colorAccentBgAlphaHeavy"
                   (alpha colorAccentBg (if isBright then 0.25 else 0.35)) browser in
  let browser := setColor "--colorAccentFg" colorAccentFg browser in
  let browser := setColor "--colorAccentFgAlpha" (alpha colorAccentFg 0.15) browser in
  setColor "--colorAccentFgAlphaHeavy" (alpha colorAccentFg 0.05) browser.

Definition resetTabColor (tab : Tab) : Tab :=
  let tab := set_backgroundColor None tab in
  set_color None tab.

(** Lines 80-88 of [#setTabColor]: the colour that enters the saturation
    remap. *)
Definition pickAccent (tab : Tab) (isInternalPage : bool)
    (colorAccentBg : Color) : Color :=
  if negb isInternalPage then
    match tab_img tab with
    | Some image =>
        match getPalette image with
        | first :: _ => chroma_rgb first
        | [] => colorAccentBg
        end
    | None => colorAccentBg
    end
  else colorAccentBg.

(** Lines 90-91: [colorAccentBg.set('hsl.s', saturation * limit)]. *)
Definition remapSaturation (colorAccentBg : Color)
    (accentSaturationLimit : Q) : Color :=
  let saturation := get_hsl_s colorAccentBg in
  set_hsl_s colorAccentBg (saturation * accentSaturationLimit).

(** Line 92. *)
Definition isBright (colorAccentBg : Color) : bool :=
  Qgtb (luminance colorAccentBg) 0.4.

(** Line 93. *)
Definition foreground (isBright : bool) : Color :=
  if isBright then BLACK else WHITE.

(** Lines 95-116: the writes, for the remapped colour. *)
Definition applyStyle (tab : Tab) (isInternalPage accentOnWindow : bool)
    (colorAccentBg : Color) (browser : StyleProps) : StyleProps * Tab :=
  let isBright := isBright colorAccentBg in
  let colorAccentFg := foreground isBright in
  if isInternalPage then
    let '(browser, tab) :=
      if isTabActive tab then
        (setAccentColors colorAccentBg colorAccentFg isBright browser,
         set_backgroundColor
           (Some (if accentOnWindow then "var(--colorBg)"
                  else "var(--colorAccentBg)")%string) tab)
      else
        (browser, set_backgroundColor (Some "var(--colorBgDark)"%string) tab) in
    (browser, set_color (Some "var(--colorFg)"%string) tab)
  else if isTabActive tab then
    let browser := setAccentColors colorAccentBg colorAccentFg isBright browser in
    if accentOnWindow then
      let tab :=
        set_backgroundColor
          (Some (if tab_active tab then "var(--colorBg)"
                 else "var(--colorBgDark)")%string) tab in
      (browser, set_color (Some "var(--colorFg)"%string) tab)
    else (browser, tab)
  else
    let tab := set_backgroundColor (Some (css colorAccentBg)) tab in
    (browser, set_color (Some (css colorAccentFg)) tab).

(** [#setTabColor(tab, accentOnWindow, colorAccentBg, accentSaturationLimit)].
    Reading [chromeTab.url] of a lookup that found no tab throws, which
    rejects the promise of this call only. *)
Definition setTabColor (tab : Tab) (accentOnWindow : bool)
    (colorAccentBg : Color) (accentSaturationLimit : Q)
    (browser : StyleProps) : Outcome :=
  match tab_chromeTabUrl tab with
  | None => Rejected
  | Some url =>
      let isInternalPage := isInternalPage url in
      let colorAccentBg := pickAccent tab isInternalPage colorAccentBg in
      let colorAccentBg := remapSaturation colorAccentBg accentSaturationLimit in
      completed (applyStyle tab isInternalPage accentOnWindow colorAccentBg browser)
  end.

(** [#colorTabs], after [theme] has been awaited. *)
Definition colorTabs (theme : Theme) (browser : StyleProps) (tabs : list Tab)
    : StyleProps * list Tab :=
  let tabColorAllowed := accentFromPage theme && negb (transparencyTabs theme) in
  if tabColorAllowed then
    forEachTab
      (fun tab =>
         setTabColor tab (accentOnWindow theme) (chroma_css (colorAccentBg theme))
                     (accentSaturationLimit theme))
      tabs browser
  else (browser, map resetTabColor tabs).

End Script.
End Part000.

(* ================================================================== *)
(** ** [src/unnamed/part_001]: theme-aware, early return               *)
(* ================================================================== *)

Module Part001.
Section Script.
Context `{Ch : Chroma}.

Definition INTERNAL_PAGES : list string :=
  ["chrome://"; "vivaldi://"; "devtools://"; "chrome-extension://"]%string.

(** The body evaluates [INTERNAL_PAGES.some(...)] and has no [return]: the
    call yields [undefined], here [None]. *)
Definition isInternalPage (url : string) : option bool :=
  let _ := existsb (fun p => String.prefix p url) INTERNAL_PAGES in
  None.

(** Truthiness of a boolean or [undefined]. *)
Definition truthy (v : option bool) : bool :=
  match v with
  | Some b => b
  | None => false
  end.

Definition setAccentColors (accentBg : Color) (isBright : bool)
    (browser : StyleProps) : StyleProps :=
  let browser := setColor "--colorAccentBg" accentBg browser in
  let browser := setColor "--colorAccentBgDark" (darken accentBg 0.4) browser in
  let browser := setColor "--colorAccentBgDarker" (darken accentBg 1) browser in
  let browser := setColor "--colorAccentBgAlpha"
                   (alpha accentBg (if isBright then 0.45 else 0.55)) browser in
  let browser := setColor "--colorAccentBgAlphaHeavy"
                   (alpha accentBg (if isBright then 0.25 else 0.35)) browser in
  let browser := setColor "--colorAccentFg" (if isBright then BLACK else WHITE) browser in
  let browser := setColor "--colorAccentFgAlpha" (alpha accentBg 0.15) browser in
  setColor "--colorAccentFgAlphaHeavy" (alpha accentBg 0.05) browser.

(** Lines 70-77: [None] is the early [return] on an empty palette. *)
Definition pickAccent (tab : Tab) (isInternalPage : option bool)
    (colorAccentBg : Color) : option Color :=
  if negb (truthy isInternalPage) then
    match tab_img tab with
    | Some image =>
        match getPalette image with
        | [] => None
        | first :: _ => Some (chroma_rgb first)
        end
    | None => Some colorAccentBg
    end
  else Some colorAccentBg.

(** Line 79. *)
Definition remapSaturation (colorAccentBg : Color)
    (accentSaturationLimit : Q) : Color :=
  set_hsl_s colorAccentBg (get_hsl_s colorAccentBg * accentSaturationLimit).

(** Lines 80-88. *)
Definition applyStyle (tab : Tab) (colorAccentBg : Color)
    (browser : StyleProps) : StyleProps * Tab :=
  let isBright := Qgtb (luminance colorAccentBg) 0.4 in
  let fgColor := if isBright then BLACK else WHITE in
  if tab_active tab then
    (setAccentColors colorAccentBg isBright browser, tab)
  else
    let tab := set_backgroundColor (Some (css colorAccentBg)) tab in
    (browser, set_color (Some (css fgColor)) tab).

(** [#setTabColor(tab, theme)]. *)
Definition setTabColor (tab : Tab) (theme : Theme) (browser : StyleProps)
    : Outcome :=
  let colorAccentBg := chroma_css (colorAccentBg theme) in
  let accentSaturationLimit := accentSaturationLimit theme in
  match tab_chromeTabUrl tab with
  | None => Rejected
  | Some url =>
      match pickAccent tab (isInternalPage url) colorAccentBg with
      | None => Returned
      | Some colorAccentBg =>
          let colorAccentBg := remapSaturation colorAccentBg accentSaturationLimit in
          completed (applyStyle tab colorAccentBg browser)
      end
  end.

(** [#colorTabs], after [theme] has been awaited. *)
Definition colorTabs (theme : Theme) (browser : StyleProps) (tabs : list Tab)
    : StyleProps * list Tab :=
  forEachTab (fun tab => setTabColor tab theme) tabs browser.

End Script.
End Part001.

(* ================================================================== *)
(** ** [src/color_tabs.js]: fixed saturation, no theme                 *)
(* ================================================================== *)

Module ColorTabsJs.
Section Script.
Context `{Ch : Chroma}.

Definition SATURATION : Q := 0.5.

(** [#setAccentColors(accentBg, isBright)]: the same eight writes as in
    part_001. *)
Definition setAccentColors (accentBg : Color) (isBright : bool)
    (browser : StyleProps) : StyleProps :=
  Part001.setAccentColors accentBg isBright browser.

(** Lines 62-70: [Value None] is the early [return] on an empty palette,
    [Thrown] the exception of [chroma] on a [--colorBg] that is unset or that
    it cannot parse. *)
Definition pickAccent (tab : Tab) (browser : StyleProps)
    : Fallible (option Color) :=
  match tab_img tab with
  | Some image =>
      match getPalette image with
      | [] => Value None
      | first :: _ => Value (Some (chroma_rgb first))
      end
  | None =>
      let colorBg := getPropertyValue "--colorBg" browser in
      if chroma_valid colorBg then Value (Some (chroma_css colorBg))
      else Thrown
  end.

(** Line 71: [bgColor.set('hsl.s', SATURATION)]. *)
Definition remapSaturation (bgColor : Color) : Color :=
  set_hsl_s bgColor SATURATION.

(** Lines 72-80. *)
Definition applyStyle (tab : Tab) (bgColor : Color) (browser : StyleProps)
    : StyleProps * Tab :=
  let isBright := Qgtb (luminance bgColor) 0.4 in
  let fgColor := if isBright then BLACK else WHITE in
  if tab_active tab then
    (setAccentColors bgColor isBright browser, tab)
  else
    let tab := set_backgroundColor (Some (css bgColor)) tab in
    (browser, set_color (Some (css fgColor)) tab).

(** [#setTabColor(tab)]. *)
Definition setTabColor (tab : Tab) (browser : StyleProps) : Outcome :=
  match pickAccent tab browser with
  | Thrown => Threw
  | Value None => Returned
  | Value (Some bgColor) =>
      let bgColor := remapSaturation bgColor in
      completed (applyStyle tab bgColor browser)
  end.

(** [#colorTabs]. *)
Definition colorTabs (browser : StyleProps) (tabs : list Tab)
    : StyleProps * list Tab :=
  forEachTab setTabColor tabs browser.

End Script.
End ColorTabsJs.

(* ================================================================== *)
(** ** A stand-in for chroma.js, to run the scripts on concrete inputs *)
(* ================================================================== *)

Module Swatch.

(** A colour of the stand-in: its HSL saturation, a luminance and its CSS
    text.  The saturation of an RGB triple is the HSL one; the luminance is
    the weighted channel sum without the gamma expansion. *)
Record t : Type := mk { sat : Q; lum : Q; text : string }.

Definition of_rgb (c : rgb) : t :=
  let '(r, g, b) := c in
  let hi := Z.max r (Z.max g b) in
  let lo := Z.min r (Z.min g b) in
  mk (if hi =? lo then 0
      else if hi + lo <=? 255 then inject_Z (hi - lo) / inject_Z (hi + lo)
      else inject_Z (hi - lo) / inject_Z (510 - hi - lo))
     (inject_Z (2126 * r + 7152 * g + 722 * b) / 2550000)
     ("rgb(" +:+ pretty r +:+ "," +:+ pretty g +:+ "," +:+ pretty b +:+ ")").

Definition of_css (s : string) : t :=
  mk 0 (if String.eqb s "#FFF" then 1 else 0) s.

(** The stand-in parses the texts that start with [#]. *)
Definition valid (s : string) : bool := String.prefix "#" s.

Definition chroma : Chroma := {|
  Color := t;
  chroma_rgb := of_rgb;
  chroma_valid := valid;
  chroma_css := of_css;
  get_hsl_s c := sat c;
  set_hsl_s c v := mk v (lum c) (text c);
  luminance c := lum c;
  darken c _ := c;
  alpha c _ := c;
  css c := text c
|}.

End Swatch.

(** Favicons and tabs used as concrete inputs below. *)
Definition pureRed : rgb := (255, 0, 0).
Definition redFavicon : list Z := [255; 0; 0; 255].
Definition whiteFavicon : list Z := [255; 255; 255; 255].

(** Three colours, two pixels each. *)
Definition tieFavicon : list Z :=
  [10; 20; 30; 255;  1; 2; 3; 255;  7; 7; 7; 255;
   7; 7; 7; 255;  1; 2; 3; 255;  10; 20; 30; 255].

Definition settingsTab (img : option (list Z)) (active : bool) : Tab :=
  mkTab active img (Some "chrome://settings"%string) None None.

Definition webTab (img : option (list Z)) (active : bool) : Tab :=
  mkTab active img (Some "https://example.org/"%string) None None.

(* ================================================================== *)
(** ** Auxiliary definitions of the proofs                             *)
(* ================================================================== *)

(** The loop body as a single pass over the palette. *)
Fixpoint tally (p : rgb) (pal : list PaletteEntry) : list PaletteEntry :=
  match pal with
  | [] => let '(red, green, blue) := p in [mkEntry red green blue 1]
  | e :: rest =>
      if rgb_eqb p (entryColor e)
      then mkEntry (e_red e) (e_green e) (e_blue e) (e_count e + 1) :: rest
      else e :: tally p rest
  end.

(** Higher count first; among equal counts, the order [Q] of the array
    before the sort. *)
Definition entryBefore (Q : PaletteEntry -> PaletteEntry -> Prop)
    (a b : PaletteEntry) : Prop :=
  e_count a > e_count b \/ (e_count a = e_count b /\ Q a b).

(** What holds of [colorPalette] after the loop has read [pixels]. *)
Record scanned (pixels : list rgb) (pal : list PaletteEntry) : Prop := {
  scanned_nodup : NoDup (colorsOf pal);
  scanned_colors :
    forall c, In c (colorsOf pal) <-> In c pixels /\ skipped c = false;
  scanned_counts :
    forall c, countOf c pal = if skipped c then 0 else occurrences c pixels;
  scanned_order :
    StronglySorted
      (fun a b => (firstIndex a pixels < firstIndex b pixels)%nat) (colorsOf pal);
  scanned_total : totalCount pal = Z.of_nat (length (qualifying pixels))
}.


(* ================================================================== *)
(** ** Tab and theme lookup (part_000, part_001)                        *)
(* ================================================================== *)

(** [s.slice(n)] for [n >= 0]: the string without its first [n]
    characters, empty when it has no more than [n]. *)
Fixpoint slice (n : nat) (s : string) : string :=
  match n, s with
  | O, _ => s
  | S _, EmptyString => EmptyString
  | S n, String _ rest => slice n rest
  end.

(** [#getTabId(tab)]: [tab.getAttribute('data-id').slice(4)]. *)
Definition getTabId (dataId : string) : string := slice 4 dataId.

(** A tab object of [chrome.tabs], with the two properties the scripts
    read. *)
Record ChromeTab : Type := mkChromeTab {
  ct_url : string;
  ct_vivExtData : string
}.

Section Lookup.

(** [JSON.parse(text).group] as the comparison [=== groupId] sees it: [None]
    when the evaluation throws (the text is no JSON, or it is [null]),
    [Some None] when the value has no [group] that is a string. *)
Variable parseGroup : string -> option (option string).

(** [await chrome.tabs.get(Number(tabId))]: [None] when the promise is
    rejected (no tab has this id). *)
Variable tabsGet : string -> option ChromeTab.

(** [vivExtData.group === groupId]. *)
Definition groupIs (group : option string) (groupId : string) : bool :=
  match group with
  | Some g => String.eqb g groupId
  | None => false
  end.

(** [#getFirstChromeTabInGroup(groupId)], over the tabs that
    [chrome.tabs.query({currentWindow: true})] gave: [tabs.find] calls the
    callback on the tabs in order until it returns true; [Value None] is the
    [undefined] of a search that found nothing. *)
Fixpoint getFirstChromeTabInGroup (groupId : string) (tabs : list ChromeTab)
    : Fallible (option ChromeTab) :=
  match tabs with
  | [] => Value None
  | tab :: rest =>
      match parseGroup (ct_vivExtData tab) with
      | None => Thrown
      | Some group =>
          if groupIs group groupId then Value (Some tab)
          else getFirstChromeTabInGroup groupId rest
      end
  end.

(** [#getChromeTab(tabId)]. *)
Definition getChromeTab (tabId : string) (tabs : list ChromeTab)
    : Fallible (option ChromeTab) :=
  if (String.length tabId <? 16)%nat then
    match tabsGet tabId with
    | Some chromeTab => Value (Some chromeTab)
    | None => Thrown
    end
  else getFirstChromeTabInGroup tabId tabs.

(** Lines 76-78 of [#setTabColor] (part_000): the [chromeTab.url] that the
    call goes on with; [None] when the lookup throws or when reading [url] of
    [undefined] does. *)
Definition chromeTabUrl (dataId : string) (tabs : list ChromeTab)
    : option string :=
  match getChromeTab (getTabId dataId) tabs with
  | Value (Some chromeTab) => Some (ct_url chromeTab)
  | Value None => None
  | Thrown => None
  end.

(** The [div.tab] with the given [data-id], as the scripts see it. *)
Definition domTab (active : bool) (img : option (list Z)) (dataId : string)
    (tabs : list ChromeTab) (backgroundColor color : option string) : Tab :=
  mkTab active img (chromeTabUrl dataId tabs) backgroundColor color.

End Lookup.

(** An element of [vivaldi.themes.system] or [vivaldi.themes.user]. *)
Record StoredTheme : Type := mkStoredTheme {
  theme_id : string;
  theme_values : Theme
}.

(** [#getCurrentTheme()], from the three preferences it awaits:
    [Array.prototype.concat(system, user).find(theme => theme.id === themeId)]. *)
Definition getCurrentTheme (themeId : string) (system user : list StoredTheme)
    : option StoredTheme :=
  find (fun theme => String.eqb (theme_id theme) themeId) (system ++ user).

Module WithPrefs.
Section Script.
Context `{Ch : Chroma}.

(** [#colorTabs] of part_000 with its [await this.#getCurrentTheme()]:
    reading [theme.accentFromPage] of [undefined] throws before any write. *)
Definition colorTabs000 (themeId : string) (system user : list StoredTheme)
    (browser : StyleProps) (tabs : list Tab)
    : Fallible (StyleProps * list Tab) :=
  match getCurrentTheme themeId system user with
  | Some theme => Value (Part000.colorTabs (theme_values theme) browser tabs)
  | None => Thrown
  end.

(** [#colorTabs] of part_001 with its [await this.#getCurrentTheme()]: each
    call of [#setTabColor] reads [theme.colorAccentBg] first, which throws
    for [undefined] and rejects that call. *)
Definition colorTabs001 (themeId : string) (system user : list StoredTheme)
    (browser : StyleProps) (tabs : list Tab)
    : Fallible (StyleProps * list Tab) :=
  match getCurrentTheme themeId system user with
  | Some theme => Value (Part001.colorTabs (theme_values theme) browser tabs)
  | None => Value (browser, tabs)
  end.

End Script.
End WithPrefs.

(* ================================================================== *)
(** ** The shape of a pass over the tabs (auxiliary)                   *)
(* ================================================================== *)

(** The custom properties that [#setAccentColors] writes. *)
Definition accentProperties : list string :=
  ["--colorAccentBg"; "--colorAccentBgDark"; "--colorAccentBgDarker";
   "--colorAccentBgAlpha"; "--colorAccentBgAlphaHeavy"; "--colorAccentFg";
   "--colorAccentFgAlpha"; "--colorAccentFgAlphaHeavy"]%string.

(** The fields of a tab that no script writes. *)
Definition sameTab (t t' : Tab) : Prop :=
  tab_active t' = tab_active t /\ tab_img t' = tab_img t /\
  tab_chromeTabUrl t' = tab_chromeTabUrl t.

Section PassShape.
Context {V A : Type}.
(** What a call reads of [#browser]; whether it runs to its end; the accent
    it then writes to [#browser], if any; the tab it leaves; the write. *)
Variables (view : StyleProps -> V) (runs : Tab -> V -> bool)
          (accent : Tab -> V -> option A) (restyle : Tab -> V -> Tab)
          (write : A -> StyleProps -> StyleProps).

Definition writeAccent (a : option A) (browser : StyleProps) : StyleProps :=
  match a with
  | Some a => write a browser
  | None => browser
  end.

(** The accent of the last tab of the strip that writes one. *)
Fixpoint lastAccent (tabs : list Tab) (v : V) : option A :=
  match tabs with
  | [] => None
  | tab :: rest =>
      match lastAccent rest v with
      | Some a => Some a
      | None => if runs tab v then accent tab v else None
      end
  end.

Definition restyleTab (v : V) (tab : Tab) : Tab :=
  if runs tab v then restyle tab v else tab.

Record passShape (f : Tab -> StyleProps -> Outcome) : Prop := {
  shape_runs : forall tab browser,
    runs tab (view browser) = true ->
    f tab browser
    = Completed (writeAccent (accent tab (view browser)) browser)
                (restyle tab (view browser));
  shape_stops : forall tab browser,
    runs tab (view browser) = false ->
    f tab browser = Returned \/ f tab browser = Rejected;
  shape_view : forall a browser, view (write a browser) = view browser;
  shape_over : forall a a' browser,
    write a (write a' browser) = write a browser;
  shape_same : forall tab v, sameTab tab (restyle tab v);
  shape_runs_fix : forall tab tab' v, sameTab tab tab' -> runs tab' v = runs tab v;
  shape_accent_fix : forall tab tab' v,
    sameTab tab tab' -> accent tab' v = accent tab v;
  shape_restyle_fix : forall tab v,
    restyle (restyle tab v) v = restyle tab v
}.

End PassShape.

Section AbortingPass.
Context {V A : Type}.
(** As above, for a pass whose calls are synchronous: [aborts] tells whether
    the call of a tab that does not run to its end throws. *)
Variables (view : StyleProps -> V) (runs aborts : Tab -> V -> bool)
          (accent : Tab -> V -> option A) (restyle : Tab -> V -> Tab)
          (write : A -> StyleProps -> StyleProps).

(** The tabs after the pass: those before the first call that throws are
    restyled, that tab and the ones after it are as they were. *)
Fixpoint passTabs (tabs : list Tab) (v : V) : list Tab :=
  match tabs with
  | [] => []
  | tab :: rest =>
      if runs tab v then restyle tab v :: passTabs rest v
      else if aborts tab v then tab :: rest
      else tab :: passTabs rest v
  end.

(** The accent of the last tab that wrote one before the pass ended. *)
Fixpoint passAccent (tabs : list Tab) (v : V) : option A :=
  match tabs with
  | [] => None
  | tab :: rest =>
      if runs tab v then
        match passAccent rest v with
        | Some a => Some a
        | None => accent tab v
        end
      else if aborts tab v then None
      else passAccent rest v
  end.

Record abortingShape (f : Tab -> StyleProps -> Outcome) : Prop := {
  ashape_runs : forall tab browser,
    runs tab (view browser) = true ->
    f tab browser
    = Completed (writeAccent write (accent tab (view browser)) browser)
                (restyle tab (view browser));
  ashape_aborts : forall tab browser,
    runs tab (view browser) = false -> aborts tab (view browser) = true ->
    f tab browser = Threw;
  ashape_stops : forall tab browser,
    runs tab (view browser) = false -> aborts tab (view browser) = false ->
    f tab browser = Returned \/ f tab browser = Rejected;
  ashape_view : forall a browser, view (write a browser) = view browser;
  ashape_over : forall a a' browser,
    write a (write a' browser) = write a browser;
  ashape_same : forall tab v, sameTab tab (restyle tab v);
  ashape_runs_fix : forall tab tab' v,
    sameTab tab tab' -> runs tab' v = runs tab v;
  ashape_accent_fix : forall tab tab' v,
    sameTab tab tab' -> accent tab' v = accent tab v;
  ashape_restyle_fix : forall tab v,
    restyle (restyle tab v) v = restyle tab v
}.

End AbortingPass.

Section Shapes.
Context `{Ch : Chroma}.

(** part_000: a call runs to its end when its chrome tab is found; the
    colour it works with; the accent an active tab writes; the tab left. *)
Definition runs000 (tab : Tab) (_ : unit) : bool :=
  match tab_chromeTabUrl tab with
  | Some _ => true
  | None => false
  end.

Definition colour000 (colorAccentBg : Color) (limit : Q) (tab : Tab)
    (url : string) : Color :=
  Part000.remapSaturation
    (Part000.pickAccent tab (Part000.isInternalPage url) colorAccentBg) limit.

Definition accent000 (colorAccentBg : Color) (limit : Q) (tab : Tab)
    (_ : unit) : option Color :=
  match tab_chromeTabUrl tab with
  | Some url =>
      if tab_active tab then Some (colour000 colorAccentBg limit tab url)
      else None
  | None => None
  end.

Definition write000 (c : Color) (browser : StyleProps) : StyleProps :=
  Part000.setAccentColors c (Part000.foreground (Part000.isBright c))
                          (Part000.isBright c) browser.

Definition restyle000 (accentOnWindow : bool) (colorAccentBg : Color)
    (limit : Q) (tab : Tab) (_ : unit) : Tab :=
  match tab_chromeTabUrl tab with
  | Some url =>
      snd (Part000.applyStyle tab (Part000.isInternalPage url) accentOnWindow
             (colour000 colorAccentBg limit tab url) ∅)
  | None => tab
  end.

(** part_001: a call runs to its end when its chrome tab is found and the
    palette of its favicon, if any, is not empty. *)
Definition colour001 (theme : Theme) (tab : Tab) : option Color :=
  match tab_chromeTabUrl tab with
  | Some url =>
      match Part001.pickAccent tab (Part001.isInternalPage url)
              (chroma_css (colorAccentBg theme)) with
      | Some c => Some (Part001.remapSaturation c (accentSaturationLimit theme))
      | None => None
      end
  | None => None
  end.

Definition runs001 (theme : Theme) (tab : Tab) (_ : unit) : bool :=
  match colour001 theme tab with
  | Some _ => true
  | None => false
  end.

Definition accent001 (theme : Theme) (tab : Tab) (_ : unit) : option Color :=
  if tab_active tab then colour001 theme tab else None.

Definition write001 (c : Color) (browser : StyleProps) : StyleProps :=
  Part001.setAccentColors c (Qgtb (luminance c) 0.4) browser.

Definition restyle001 (theme : Theme) (tab : Tab) (_ : unit) : Tab :=
  match colour001 theme tab with
  | Some c => snd (Part001.applyStyle tab c ∅)
  | None => tab
  end.

(** color_tabs.js: a call reads the [--colorBg] of [#browser]; it runs to
    its end unless the palette of its favicon is empty or, without favicon,
    [chroma] cannot parse [--colorBg], in which case it throws. *)
Definition viewJs (browser : StyleProps) : string :=
  getPropertyValue "--colorBg" browser.

Definition colourJs (tab : Tab) (colorBg : string) : option Color :=
  match tab_img tab with
  | Some image =>
      match getPalette image with
      | [] => None
      | first :: _ => Some (ColorTabsJs.remapSaturation (chroma_rgb first))
      end
  | None =>
      if chroma_valid colorBg
      then Some (ColorTabsJs.remapSaturation (chroma_css colorBg))
      else None
  end.

Definition abortsJs (tab : Tab) (colorBg : string) : bool :=
  match tab_img tab with
  | Some _ => false
  | None => negb (chroma_valid colorBg)
  end.

Definition runsJs (tab : Tab) (colorBg : string) : bool :=
  match colourJs tab colorBg with
  | Some _ => true
  | None => false
  end.

Definition accentJs (tab : Tab) (colorBg : string) : option Color :=
  if tab_active tab then colourJs tab colorBg else None.

Definition restyleJs (tab : Tab) (colorBg : string) : Tab :=
  match colourJs tab colorBg with
  | Some c => snd (ColorTabsJs.applyStyle tab c ∅)
  | None => tab
  end.

End Shapes.

(** Stand-ins for the host, to run the lookups on concrete inputs: the text
    of [vivExtData] is empty (no JSON), [{}] (no group) or else taken as the
    group itself; one tab has the id 7. *)
Definition groupOfText (text : string) : option (option string) :=
  if String.eqb text "" then None
  else if String.eqb text "{}" then Some None
  else Some (Some text).

Definition tabSeven (tabId : string) : option ChromeTab :=
  if String.eqb tabId "7" then Some (mkChromeTab "https://example.org/" "{}")
  else None.

(** The colour of the first pixel of [tieFavicon]. *)
Definition tieFirst : rgb := (10, 20, 30).

(* ================================================================== *)
(** * Properties                                                       *)
(* ================================================================== *)
Example getPalette_two_colors :
  getPalette [10;20;30;255; 1;2;3;255; 1;2;3;255; 0;9;9;255; 250;250;250;255]
  = [(1,2,3); (10,20,30)].
Proof. reflexivity. Qed.

Example getPalette_tie_keeps_scan_order :
  getPalette [10;20;30;255; 1;2;3;255; 7;7;7;255; 7;7;7;255; 1;2;3;255; 10;20;30;255]
  = [(10,20,30); (1,2,3); (7,7,7)].
Proof. reflexivity. Qed.

Example getPalette_single_red_pixel : getPalette redFavicon = [pureRed].
Proof. reflexivity. Qed.

Example getPalette_single_white_pixel : getPalette whiteFavicon = [].
Proof. reflexivity. Qed.

Example getPalette_caps_at_ten :
  length (getPalette
            (flat_map (fun n => [Z.of_nat n + 1; 5; 5; 255]) (seq 0 12)))
  = 10%nat.
Proof. reflexivity. Qed.

Example red_favicon_on_web_page :
  @Part000.setTabColor Swatch.chroma (webTab (Some redFavicon) false)
    false (Swatch.of_css "#39F") 1 ∅
  = Completed ∅
      (mkTab false (Some redFavicon) (Some "https://example.org/"%string)
         (Some "rgb(255,0,0)"%string) (Some "#FFF"%string)).
Proof. reflexivity. Qed.

(* ------------------------------------------------------------------ *)
(** ** Colours and the inner loop                                      *)
(* ------------------------------------------------------------------ *)

Lemma rgb_eqb_eq (c d : rgb) : rgb_eqb c d = true <-> c = d.
Proof.
  destruct c as [[r1 g1] b1], d as [[r2 g2] b2]; unfold rgb_eqb.
  rewrite !andb_true_iff, !Z.eqb_eq. split.
  - intros [[-> ->] ->]; reflexivity.
  - intros [= -> -> ->]; auto.
Qed.

Lemma rgb_eqb_refl (c : rgb) : rgb_eqb c c = true.
Proof. apply rgb_eqb_eq; reflexivity. Qed.

Lemma rgb_eqb_neq (c d : rgb) : rgb_eqb c d = false <-> c <> d.
Proof.
  rewrite <- rgb_eqb_eq. destruct (rgb_eqb c d); split; congruence.
Qed.

Lemma rgb_eqb_sym (c d : rgb) : rgb_eqb c d = rgb_eqb d c.
Proof.
  destruct (rgb_eqb d c) eqn:E.
  - apply rgb_eqb_eq. apply rgb_eqb_eq in E. congruence.
  - apply rgb_eqb_neq. apply rgb_eqb_neq in E. congruence.
Qed.

Lemma entryColor_mk (r g b n : Z) : entryColor (mkEntry r g b n) = (r, g, b).
Proof. reflexivity. Qed.

(** The search started at a later counter finds the same entry. *)
Lemma findColorIndex_S (p : rgb) (pal : list PaletteEntry) (k : nat) :
  findColorIndex p pal (S k) = option_map S (findColorIndex p pal k).
Proof.
  revert k; induction pal as [|e pal IH]; intro k; simpl; [reflexivity|].
  destruct (rgb_eqb p (entryColor e)); [reflexivity | apply IH].
Qed.

Lemma countPixel_tally (pal : list PaletteEntry) (p : rgb) :
  countPixel pal p = tally p pal.
Proof.
  unfold countPixel. induction pal as [|e pal IH]; simpl.
  - destruct p as [[r g] b]; reflexivity.
  - destruct (rgb_eqb p (entryColor e)); [reflexivity|].
    rewrite findColorIndex_S, <- IH.
    destruct (findColorIndex p pal 0); simpl; [reflexivity|].
    destruct p as [[r g] b]; reflexivity.
Qed.

Lemma colorsOf_tally (p : rgb) (pal : list PaletteEntry) :
  colorsOf (tally p pal) =
  if existsb (rgb_eqb p) (colorsOf pal) then colorsOf pal else colorsOf pal ++ [p].
Proof.
  induction pal as [|e pal IH]; simpl.
  - destruct p as [[r g] b]; reflexivity.
  - destruct (rgb_eqb p (entryColor e)) eqn:E; simpl; [reflexivity|].
    unfold colorsOf in *; rewrite IH.
    destruct (existsb (rgb_eqb p) (map entryColor pal)); reflexivity.
Qed.

Lemma existsb_rgb_In (p : rgb) (l : list rgb) :
  existsb (rgb_eqb p) l = true <-> In p l.
Proof.
  rewrite existsb_exists. split.
  - intros (x & Hx & E). apply rgb_eqb_eq in E. congruence.
  - intros H. exists p. split; [assumption | apply rgb_eqb_refl].
Qed.

Lemma countOf_tally (c p : rgb) (pal : list PaletteEntry) :
  countOf c (tally p pal) = countOf c pal + (if rgb_eqb c p then 1 else 0).
Proof.
  induction pal as [|e pal IH]; simpl.
  - destruct p as [[r g] b]; simpl. rewrite entryColor_mk.
    destruct (rgb_eqb c (r, g, b)); reflexivity.
  - destruct (rgb_eqb p (entryColor e)) eqn:E; simpl.
    + apply rgb_eqb_eq in E; subst p.
      unfold entryColor at 1; simpl. fold (entryColor e).
      destruct (rgb_eqb c (entryColor e)); lia.
    + destruct (rgb_eqb c (entryColor e)) eqn:E2.
      * apply rgb_eqb_eq in E2; subst c.
        rewrite rgb_eqb_sym, E. lia.
      * apply IH.
Qed.

Lemma totalCount_tally (p : rgb) (pal : list PaletteEntry) :
  totalCount (tally p pal) = totalCount pal + 1.
Proof.
  induction pal as [|e pal IH]; simpl.
  - destruct p as [[r g] b]; reflexivity.
  - destruct (rgb_eqb p (entryColor e)); simpl.
    + unfold totalCount; simpl; lia.
    + unfold totalCount in *; simpl; rewrite IH; lia.
Qed.

Lemma countOf_In (e : PaletteEntry) (pal : list PaletteEntry) :
  NoDup (colorsOf pal) -> In e pal -> countOf (entryColor e) pal = e_count e.
Proof.
  induction pal as [|x pal IH]; [simpl; tauto|].
  intros Hnd [->|Hin]; cbn [countOf].
  - rewrite rgb_eqb_refl; reflexivity.
  - inversion Hnd as [|? ? Hx Hnd']; subst.
    destruct (rgb_eqb (entryColor e) (entryColor x)) eqn:E.
    + apply rgb_eqb_eq in E. exfalso; apply Hx. rewrite <- E.
      unfold colorsOf; apply in_map; assumption.
    + apply IH; assumption.
Qed.

(* ------------------------------------------------------------------ *)
(** ** Occurrences and first encounters along the scan                 *)
(* ------------------------------------------------------------------ *)

Lemma occurrences_app (c : rgb) (l l' : list rgb) :
  occurrences c (l ++ l') = occurrences c l + occurrences c l'.
Proof.
  unfold occurrences. rewrite List.filter_app, List.length_app. lia.
Qed.

Lemma occurrences_one (c p : rgb) :
  occurrences c [p] = if rgb_eqb c p then 1 else 0.
Proof. unfold occurrences; simpl. destruct (rgb_eqb c p); reflexivity. Qed.

Lemma occurrences_nonneg (c : rgb) (l : list rgb) : 0 <= occurrences c l.
Proof. unfold occurrences; lia. Qed.

Lemma occurrences_pos (c : rgb) (l : list rgb) : In c l -> 1 <= occurrences c l.
Proof.
  intros H. unfold occurrences.
  assert (Hin : In c (filter (rgb_eqb c) l)).
  { apply List.filter_In. split; [assumption | apply rgb_eqb_refl]. }
  destruct (filter (rgb_eqb c) l); [contradiction | simpl; lia].
Qed.

Lemma firstIndex_app_in (c : rgb) (l l' : list rgb) :
  In c l -> firstIndex c (l ++ l') = firstIndex c l.
Proof.
  induction l as [|p l IH]; simpl; [tauto|].
  intros [->|H].
  - rewrite rgb_eqb_refl; reflexivity.
  - destruct (rgb_eqb c p); [reflexivity | rewrite IH; auto].
Qed.

Lemma firstIndex_lt (c : rgb) (l : list rgb) :
  In c l -> (firstIndex c l < length l)%nat.
Proof.
  induction l as [|p l IH]; simpl; [tauto|].
  intros [->|H].
  - rewrite rgb_eqb_refl; lia.
  - destruct (rgb_eqb c p); [lia | specialize (IH H); lia].
Qed.

Lemma firstIndex_snoc_new (c : rgb) (l : list rgb) :
  ~ In c l -> firstIndex c (l ++ [c]) = length l.
Proof.
  induction l as [|p l IH]; simpl; intros H.
  - rewrite rgb_eqb_refl; reflexivity.
  - destruct (rgb_eqb c p) eqn:E.
    + apply rgb_eqb_eq in E. exfalso; apply H; left; congruence.
    + rewrite IH; [reflexivity | tauto].
Qed.

(** The pixel met at [firstIndex] is the colour itself. *)
Lemma firstIndex_nth (c : rgb) (l : list rgb) :
  In c l -> nth_error l (firstIndex c l) = Some c.
Proof.
  induction l as [|p l IH]; simpl; [tauto|].
  intros H. destruct (rgb_eqb c p) eqn:E.
  - apply rgb_eqb_eq in E; subst; reflexivity.
  - simpl. apply IH. destruct H as [->|H]; [|assumption].
    rewrite rgb_eqb_refl in E; discriminate.
Qed.

(** No earlier pixel has the colour. *)
Lemma firstIndex_first (c : rgb) (l : list rgb) (i : nat) :
  (i < firstIndex c l)%nat -> nth_error l i <> Some c.
Proof.
  revert i; induction l as [|p l IH]; simpl; intros i Hi; [lia|].
  destruct (rgb_eqb c p) eqn:E; [lia|].
  destruct i as [|i]; simpl.
  - intros [= ->]. rewrite rgb_eqb_refl in E; discriminate.
  - apply IH; lia.
Qed.

Lemma StronglySorted_weaken {A : Type} (R R' : A -> A -> Prop) (l : list A) :
  (forall a b, In a l -> In b l -> R a b -> R' a b) ->
  StronglySorted R l -> StronglySorted R' l.
Proof.
  intros HR Hs. induction Hs as [|a l Hs IH Hall]; constructor.
  - apply IH. intros x y Hx Hy. apply HR; right; assumption.
  - rewrite List.Forall_forall in *. intros x Hx.
    apply HR; [left; reflexivity | right; assumption | apply Hall; assumption].
Qed.

Lemma StronglySorted_snoc {A : Type} (R : A -> A -> Prop) (l : list A) (x : A) :
  StronglySorted R l -> List.Forall (fun a => R a x) l ->
  StronglySorted R (l ++ [x]).
Proof.
  intros Hs Hall. induction Hs as [|a l Hs IH Ha]; simpl.
  - repeat constructor.
  - inversion Hall as [|? ? Hax Hall']; subst. constructor.
    + apply IH; assumption.
    + apply List.Forall_app; split; [assumption | repeat constructor; assumption].
Qed.

Lemma StronglySorted_map {A B : Type} (f : A -> B) (R : B -> B -> Prop)
    (l : list A) :
  StronglySorted (fun a b => R (f a) (f b)) l <-> StronglySorted R (map f l).
Proof.
  induction l as [|a l IH]; simpl.
  - split; constructor.
  - split; intros H; inversion H as [|? ? Hs Hall]; subst; constructor;
      try (apply IH; assumption);
      rewrite List.Forall_forall in *.
    + intros y Hy. apply List.in_map_iff in Hy as (x & <- & Hx). apply Hall; assumption.
    + intros x Hx. apply Hall. apply List.in_map; assumption.
Qed.

Lemma In_firstn {A : Type} (x : A) (n : nat) (l : list A) :
  In x (firstn n l) -> In x l.
Proof.
  intros H. rewrite <- (firstn_skipn n l). apply List.in_or_app; left; exact H.
Qed.

Lemma StronglySorted_firstn {A : Type} (R : A -> A -> Prop) (n : nat)
    (l : list A) :
  StronglySorted R l -> StronglySorted R (firstn n l).
Proof.
  revert n; induction l as [|a l IH]; intros n Hs.
  - rewrite firstn_nil; constructor.
  - destruct n as [|n]; simpl; [constructor|].
    inversion Hs as [|? ? Hs' Hall]; subst. constructor.
    + apply IH; assumption.
    + rewrite List.Forall_forall in *. intros x Hx.
      apply Hall. eapply In_firstn; eassumption.
Qed.

Lemma scanned_nil : scanned [] [].
Proof.
  split; simpl.
  - constructor.
  - intros c; tauto.
  - intros c; destruct (skipped c); reflexivity.
  - constructor.
  - reflexivity.
Qed.

Lemma scanned_skip (pixels : list rgb) (pal : list PaletteEntry) (x : rgb) :
  skipped x = true -> scanned pixels pal -> scanned (pixels ++ [x]) pal.
Proof.
  intros Hx [Hnd Hcol Hcnt Hord Htot]. split.
  - assumption.
  - intros c. rewrite Hcol, List.in_app_iff. simpl.
    split; [tauto|]. intros [[H|[->|[]]] Hs]; [tauto | congruence].
  - intros c. rewrite Hcnt, occurrences_app, occurrences_one.
    destruct (skipped c) eqn:Hc; [reflexivity|].
    destruct (rgb_eqb c x) eqn:E; [|lia].
    apply rgb_eqb_eq in E; congruence.
  - eapply StronglySorted_weaken; [|exact Hord].
    intros a b Ha Hb. apply Hcol in Ha, Hb.
    rewrite !firstIndex_app_in by tauto. tauto.
  - unfold qualifying. rewrite List.filter_app. simpl. rewrite Hx. simpl.
    rewrite app_nil_r. exact Htot.
Qed.

Lemma scanned_count (pixels : list rgb) (pal : list PaletteEntry) (x : rgb) :
  skipped x = false -> scanned pixels pal ->
  scanned (pixels ++ [x]) (tally x pal).
Proof.
  intros Hx [Hnd Hcol Hcnt Hord Htot].
  assert (Hnew : existsb (rgb_eqb x) (colorsOf pal) = false -> ~ In x pixels).
  { intros E Hin. assert (In x (colorsOf pal)) by (apply Hcol; tauto).
    apply existsb_rgb_In in H. congruence. }
  split.
  - rewrite colorsOf_tally.
    destruct (existsb (rgb_eqb x) (colorsOf pal)) eqn:E; [assumption|].
    apply List.NoDup_rev in Hnd.
    rewrite <- (List.rev_involutive (colorsOf pal ++ [x])).
    apply List.NoDup_rev. rewrite List.rev_app_distr. simpl.
    constructor; [|assumption].
    rewrite <- List.in_rev. intros H. apply existsb_rgb_In in H. congruence.
  - intros c. rewrite colorsOf_tally, List.in_app_iff. simpl.
    destruct (existsb (rgb_eqb x) (colorsOf pal)) eqn:E.
    + apply existsb_rgb_In in E. rewrite Hcol. split; [tauto|].
      intros [[H|[->|[]]] Hs]; [tauto|]. apply Hcol; assumption.
    + rewrite List.in_app_iff, Hcol. simpl. split.
      * intros [H|[->|[]]]; tauto.
      * intros [[H|[->|[]]] Hs]; tauto.
  - intros c. rewrite countOf_tally, Hcnt, occurrences_app, occurrences_one.
    destruct (skipped c) eqn:Hc; [|reflexivity].
    destruct (rgb_eqb c x) eqn:E; [|reflexivity].
    apply rgb_eqb_eq in E; congruence.
  - rewrite colorsOf_tally.
    destruct (existsb (rgb_eqb x) (colorsOf pal)) eqn:E.
    + eapply StronglySorted_weaken; [|exact Hord].
      intros a b Ha Hb. apply Hcol in Ha, Hb.
      rewrite !firstIndex_app_in by tauto. tauto.
    + apply StronglySorted_snoc.
      * eapply StronglySorted_weaken; [|exact Hord].
        intros a b Ha Hb. apply Hcol in Ha, Hb.
        rewrite !firstIndex_app_in by tauto. tauto.
      * apply List.Forall_forall. intros a Ha. apply Hcol in Ha.
        rewrite firstIndex_app_in by tauto.
        rewrite firstIndex_snoc_new by auto.
        apply firstIndex_lt; tauto.
  - rewrite totalCount_tally, Htot. unfold qualifying.
    rewrite List.filter_app. simpl. rewrite Hx. simpl.
    rewrite List.length_app. simpl. lia.
Qed.

Lemma fold_visit_scanned (pixels : list rgb) :
  scanned pixels (fold_left visitPixel pixels []).
Proof.
  induction pixels as [|x pixels IH] using rev_ind.
  - apply scanned_nil.
  - rewrite fold_left_app. simpl. unfold visitPixel at 1.
    destruct (skipped x) eqn:Hx; simpl.
    + apply scanned_skip; assumption.
    + rewrite countPixel_tally. apply scanned_count; assumption.
Qed.

Lemma scanPixels_scanned (pixelData : list Z) :
  scanned (pixelsOf pixelData) (scanPixels pixelData).
Proof. apply fold_visit_scanned. Qed.

(* ------------------------------------------------------------------ *)
(** ** The sort                                                        *)
(* ------------------------------------------------------------------ *)

Lemma insertEntry_perm (x : PaletteEntry) (l : list PaletteEntry) :
  Permutation (insertEntry x l) (x :: l).
Proof.
  induction l as [|y l IH]; simpl; [reflexivity|].
  destruct (compareFn y x <? 0); [|reflexivity].
  rewrite IH. apply perm_swap.
Qed.

Lemma sortPalette_perm (l : list PaletteEntry) : Permutation (sortPalette l) l.
Proof.
  induction l as [|x l IH]; simpl; [reflexivity|].
  rewrite insertEntry_perm. apply perm_skip, IH.
Qed.

Lemma insertEntry_sorted (Q : PaletteEntry -> PaletteEntry -> Prop)
    (x : PaletteEntry) (l : list PaletteEntry) :
  List.Forall (Q x) l ->
  StronglySorted (entryBefore Q) l ->
  StronglySorted (entryBefore Q) (insertEntry x l).
Proof.
  intros HQ Hs. induction Hs as [|y l Hs IH Hy]; simpl.
  - repeat constructor.
  - inversion HQ as [|? ? Hxy HQ']; subst.
    unfold compareFn. destruct (e_count x - e_count y <? 0) eqn:E.
    + apply Z.ltb_lt in E. constructor; [apply IH; assumption|].
      rewrite List.Forall_forall in *. intros z Hz.
      apply (Permutation_in _ (insertEntry_perm x l)) in Hz.
      destruct Hz as [<-|Hz]; [left; lia | apply Hy; assumption].
    + apply Z.ltb_ge in E. constructor; [constructor; assumption|].
      constructor.
      * unfold entryBefore. destruct (Z.eq_dec (e_count x) (e_count y)); [right; tauto | left; lia].
      * rewrite List.Forall_forall in *. intros z Hz.
        assert (Hyz : e_count z <= e_count y)
          by (destruct (Hy z Hz) as [H|[H _]]; lia).
        unfold entryBefore.
        destruct (Z.eq_dec (e_count x) (e_count z)); [right; auto | left; lia].
Qed.

Lemma sortPalette_sorted (Q : PaletteEntry -> PaletteEntry -> Prop)
    (l : list PaletteEntry) :
  StronglySorted Q l -> StronglySorted (entryBefore Q) (sortPalette l).
Proof.
  intros Hs. induction Hs as [|x l Hs IH Hx]; simpl; [constructor|].
  apply insertEntry_sorted; [|assumption].
  rewrite List.Forall_forall in *. intros z Hz. apply Hx.
  eapply Permutation_in; [apply sortPalette_perm | exact Hz].
Qed.

Lemma StronglySorted_nth_error {A : Type} (R : A -> A -> Prop) (l : list A)
    (i j : nat) (a b : A) :
  StronglySorted R l -> (i < j)%nat ->
  nth_error l i = Some a -> nth_error l j = Some b -> R a b.
Proof.
  intros Hs. revert i j. induction Hs as [|x l Hs IH Hx]; intros i j Hij Hi Hj.
  - destruct i; discriminate.
  - destruct j as [|j]; [lia|]. simpl in Hj.
    destruct i as [|i]; simpl in Hi.
    + injection Hi as ->. rewrite List.Forall_forall in Hx.
      apply Hx. eapply nth_error_In; eassumption.
    + apply (IH i j); [lia | assumption | assumption].
Qed.

Lemma NoDup_firstn {A : Type} (n : nat) (l : list A) :
  NoDup l -> NoDup (firstn n l).
Proof.
  intros H. rewrite <- (firstn_skipn n l) in H.
  eapply List.NoDup_app_remove_r; exact H.
Qed.

(* ------------------------------------------------------------------ *)
(** ** The palette returned                                            *)
(* ------------------------------------------------------------------ *)

(** The entries kept by the slice are entries of the scanned palette. *)
Lemma topColors_In (pixelData : list Z) (n : nat) (e : PaletteEntry) :
  In e (firstn n (sortPalette (scanPixels pixelData))) ->
  In e (scanPixels pixelData).
Proof.
  intros H. apply In_firstn in H.
  eapply Permutation_in; [apply sortPalette_perm | exact H].
Qed.

(** The count of a scanned entry is the number of pixels of its colour. *)
Lemma scanned_entry_count (pixels : list rgb) (pal : list PaletteEntry)
    (e : PaletteEntry) :
  scanned pixels pal -> In e pal ->
  e_count e = occurrences (entryColor e) pixels /\
  skipped (entryColor e) = false /\ In (entryColor e) pixels.
Proof.
  intros [Hnd Hcol Hcnt _ _] He.
  assert (Hc : In (entryColor e) (colorsOf pal)) by (apply List.in_map; exact He).
  apply Hcol in Hc as [Hin Hs].
  rewrite <- (countOf_In e pal Hnd He), Hcnt, Hs. auto.
Qed.

Lemma getPalette_length (pixelData : list Z) :
  length (getPalette pixelData) =
  Nat.min 10 (length (colorsOf (scanPixels pixelData))).
Proof.
  unfold getPalette, colorsOf.
  rewrite List.length_map, List.length_firstn, List.length_map.
  rewrite (Permutation_length (sortPalette_perm _)). lia.
Qed.

Lemma getPalette_In (pixelData : list Z) (c : rgb) :
  In c (getPalette pixelData) ->
  In c (pixelsOf pixelData) /\ skipped c = false.
Proof.
  unfold getPalette. intros H.
  apply List.in_map_iff in H as (e & <- & He).
  rewrite Nat.min_comm in He. apply topColors_In in He.
  destruct (scanned_entry_count _ _ e (scanPixels_scanned pixelData) He)
    as (_ & Hs & Hin).
  split; assumption.
Qed.

Lemma getPalette_NoDup (pixelData : list Z) : NoDup (getPalette pixelData).
Proof.
  unfold getPalette.
  change (fun color : PaletteEntry => (e_red color, e_green color, e_blue color))
    with entryColor.
  rewrite <- List.firstn_map. apply NoDup_firstn.
  eapply Permutation_NoDup.
  - apply Permutation_map. symmetry. apply sortPalette_perm.
  - apply (scanned_nodup _ _ (scanPixels_scanned pixelData)).
Qed.

Lemma getPalette_ranked (pixelData : list Z) :
  StronglySorted (ranksBefore (pixelsOf pixelData)) (getPalette pixelData).
Proof.
  unfold getPalette.
  change (fun color : PaletteEntry => (e_red color, e_green color, e_blue color))
    with entryColor.
  apply (proj1 (StronglySorted_map entryColor _ _)).
  set (pixels := pixelsOf pixelData).
  set (Q := fun a b : PaletteEntry =>
              (firstIndex (entryColor a) pixels < firstIndex (entryColor b) pixels)%nat).
  apply StronglySorted_weaken with (R := entryBefore Q).
  - intros a b Ha Hb Hab.
    apply topColors_In in Ha, Hb.
    destruct (scanned_entry_count _ _ a (scanPixels_scanned pixelData) Ha) as (Ea & _).
    destruct (scanned_entry_count _ _ b (scanPixels_scanned pixelData) Hb) as (Eb & _).
    fold pixels in Ea, Eb. unfold ranksBefore. rewrite <- Ea, <- Eb. exact Hab.
  - apply StronglySorted_firstn, sortPalette_sorted.
    apply (proj2 (StronglySorted_map entryColor
             (fun a b => (firstIndex a pixels < firstIndex b pixels)%nat) _)).
    apply (scanned_order _ _ (scanPixels_scanned pixelData)).
Qed.

Lemma skipped_iff (red green blue : Z) :
  skipped (red, green, blue) = true <->
  red = 0 \/ (red > 240 /\ green > 240 /\ blue > 240).
Proof.
  unfold skipped.
  rewrite orb_true_iff, !andb_true_iff, Z.eqb_eq, !Z.gtb_gt. tauto.
Qed.

Lemma visitPixel_unchanged_iff (pal : list PaletteEntry) (p : rgb) :
  visitPixel pal p = pal <-> skipped p = true.
Proof.
  unfold visitPixel. destruct (skipped p) eqn:E; simpl.
  - tauto.
  - split; [|discriminate]. intros H.
    pose proof (totalCount_tally p pal) as Ht.
    rewrite <- countPixel_tally, H in Ht. lia.
Qed.

Lemma fold_visit_all_skipped (pixels : list rgb) (pal : list PaletteEntry) :
  List.Forall (fun p => skipped p = true) pixels ->
  fold_left visitPixel pixels pal = pal.
Proof.
  intros H. revert pal. induction H as [|p pixels Hp _ IH]; intro pal; simpl.
  - reflexivity.
  - rewrite (proj2 (visitPixel_unchanged_iff pal p) Hp). apply IH.
Qed.

Lemma pixelsOf_In (pixelData : list Z) (c : rgb) :
  In c (pixelsOf pixelData) <->
  exists pixelIndex,
    (pixelIndex < length pixelData / 4)%nat /\ pixelAt pixelData pixelIndex = c.
Proof.
  unfold pixelsOf. rewrite List.in_map_iff. split.
  - intros (i & E & Hi). apply List.in_seq in Hi. exists i. split; [lia | exact E].
  - intros (i & Hi & E). exists i. split; [exact E | apply List.in_seq; lia].
Qed.

(** The sorted palette before the slice, as colours. *)
Lemma sortedColors_ranked (pixelData : list Z) :
  StronglySorted (ranksBefore (pixelsOf pixelData))
                 (colorsOf (sortPalette (scanPixels pixelData))).
Proof.
  unfold colorsOf.
  apply (proj1 (StronglySorted_map entryColor _ _)).
  set (pixels := pixelsOf pixelData).
  set (Q := fun a b : PaletteEntry =>
              (firstIndex (entryColor a) pixels < firstIndex (entryColor b) pixels)%nat).
  apply StronglySorted_weaken with (R := entryBefore Q).
  - intros a b Ha Hb Hab.
    apply (Permutation_in _ (sortPalette_perm _)) in Ha, Hb.
    destruct (scanned_entry_count _ _ a (scanPixels_scanned pixelData) Ha) as (Ea & _).
    destruct (scanned_entry_count _ _ b (scanPixels_scanned pixelData) Hb) as (Eb & _).
    fold pixels in Ea, Eb. unfold ranksBefore. rewrite <- Ea, <- Eb. exact Hab.
  - apply sortPalette_sorted.
    apply (proj2 (StronglySorted_map entryColor
             (fun a b => (firstIndex a pixels < firstIndex b pixels)%nat) _)).
    apply (scanned_order _ _ (scanPixels_scanned pixelData)).
Qed.

Lemma getPalette_firstn (pixelData : list Z) :
  getPalette pixelData
  = firstn (Nat.min 10 (length (colorsOf (sortPalette (scanPixels pixelData)))))
           (colorsOf (sortPalette (scanPixels pixelData))).
Proof.
  unfold getPalette, colorsOf.
  change (fun color : PaletteEntry => (e_red color, e_green color, e_blue color))
    with entryColor.
  rewrite List.firstn_map, List.length_map. reflexivity.
Qed.

Lemma sortedColors_In (pixelData : list Z) (c : rgb) :
  In c (colorsOf (sortPalette (scanPixels pixelData))) <->
  In c (pixelsOf pixelData) /\ skipped c = false.
Proof.
  rewrite <- (scanned_colors _ _ (scanPixels_scanned pixelData)).
  unfold colorsOf. split; apply Permutation_in, Permutation_map.
  - apply sortPalette_perm.
  - symmetry. apply sortPalette_perm.
Qed.

Lemma StronglySorted_app_cross {X : Type} (R : X -> X -> Prop)
    (l1 l2 : list X) (a b : X) :
  StronglySorted R (l1 ++ l2) -> In a l1 -> In b l2 -> R a b.
Proof.
  induction l1 as [|x l1 IH]; simpl; intros Hs Ha Hb; [contradiction|].
  inversion Hs as [|? ? Hs' Hall]; subst.
  destruct Ha as [->|Ha].
  - rewrite List.Forall_forall in Hall. apply Hall.
    apply List.in_or_app. right. exact Hb.
  - apply IH; assumption.
Qed.

(* ------------------------------------------------------------------ *)
(** ** The palette extractor                                           *)
(* ------------------------------------------------------------------ *)

(** C2. The loop body leaves the palette as it is exactly for a pixel whose
    red channel is 0 or whose three channels all exceed 240; any other pixel
    adds one to the count recorded for its colour and to no other count, and
    after the scan the counts add up to the number of pixels that pass the
    filter. *)
Theorem C2_pixel_skipped_iff_red_zero_or_near_white
    (colorPalette : list PaletteEntry) (red green blue : Z) :
  (visitPixel colorPalette (red, green, blue) = colorPalette <->
     red = 0 \/ (red > 240 /\ green > 240 /\ blue > 240)) /\
  (~ (red = 0 \/ (red > 240 /\ green > 240 /\ blue > 240)) ->
     forall c,
       countOf c (visitPixel colorPalette (red, green, blue)) =
       countOf c colorPalette + (if rgb_eqb c (red, green, blue) then 1 else 0)) /\
  (forall pixelData,
     totalCount (scanPixels pixelData) =
     Z.of_nat (length (filter (fun p => negb (skipped p)) (pixelsOf pixelData)))).
Proof.
  split; [|split].
  - rewrite visitPixel_unchanged_iff. apply skipped_iff.
  - intros H c. unfold visitPixel.
    destruct (skipped (red, green, blue)) eqn:E.
    + apply skipped_iff in E. contradiction.
    + simpl. rewrite countPixel_tally. apply countOf_tally.
  - intros pixelData. apply (scanned_total _ _ (scanPixels_scanned pixelData)).
Qed.

(** C3. The palette returned has at most 10 colours, a colour never stands
    before one that occurs in more pixels, and the palette is shorter than 10
    only by having every distinct colour that passes the filter.  Its
    colours are pairwise distinct colours of pixels that pass the filter, and
    they are the most frequent ones of the image: a colour that passes the
    filter and is left out occurs in fewer pixels than every returned
    colour, or in as many and later in the scan. *)
Theorem C3_at_most_ten_most_frequent_first (pixelData : list Z) :
  (length (getPalette pixelData) <= 10)%nat /\
  (forall i j c d,
     (i < j)%nat ->
     nth_error (getPalette pixelData) i = Some c ->
     nth_error (getPalette pixelData) j = Some d ->
     occurrences c (pixelsOf pixelData) >= occurrences d (pixelsOf pixelData)) /\
  length (getPalette pixelData) =
  Nat.min 10 (length (distinctQualifying (pixelsOf pixelData))) /\
  NoDup (getPalette pixelData) /\
  (forall c,
     In c (getPalette pixelData) ->
     In c (pixelsOf pixelData) /\ skipped c = false /\
     occurrences c (pixelsOf pixelData) >= 1) /\
  (forall c d,
     In c (getPalette pixelData) ->
     In d (pixelsOf pixelData) -> skipped d = false ->
     ~ In d (getPalette pixelData) ->
     occurrences d (pixelsOf pixelData) < occurrences c (pixelsOf pixelData) \/
     (occurrences d (pixelsOf pixelData) = occurrences c (pixelsOf pixelData) /\
      (firstIndex c (pixelsOf pixelData) < firstIndex d (pixelsOf pixelData))%nat)).
Proof.
  assert (Hlen : length (colorsOf (scanPixels pixelData)) =
                 length (distinctQualifying (pixelsOf pixelData))).
  { apply Permutation_length, NoDup_Permutation.
    - apply (scanned_nodup _ _ (scanPixels_scanned pixelData)).
    - apply List.NoDup_nodup.
    - intros c. rewrite (scanned_colors _ _ (scanPixels_scanned pixelData)).
      unfold distinctQualifying, qualifying.
      rewrite List.nodup_In, List.filter_In, negb_true_iff. tauto. }
  split; [|split; [|split; [|split; [|split]]]].
  - rewrite getPalette_length. lia.
  - intros i j c d Hij Hi Hj.
    destruct (StronglySorted_nth_error _ _ i j c d
                (getPalette_ranked pixelData) Hij Hi Hj) as [H|[H _]]; lia.
  - rewrite getPalette_length, Hlen. reflexivity.
  - apply getPalette_NoDup.
  - intros c Hc. apply getPalette_In in Hc as [Hin Hs].
    split; [exact Hin|]. split; [exact Hs|].
    pose proof (occurrences_pos c _ Hin). lia.
  - intros c d Hc Hd Hsd Hout.
    pose proof (sortedColors_ranked pixelData) as Hsorted.
    assert (HdL : In d (colorsOf (sortPalette (scanPixels pixelData))))
      by (apply sortedColors_In; split; assumption).
    rewrite getPalette_firstn in Hc, Hout.
    set (L := colorsOf (sortPalette (scanPixels pixelData))) in *.
    set (n := Nat.min 10 (length L)) in *.
    rewrite <- (firstn_skipn n L) in HdL, Hsorted.
    apply List.in_app_or in HdL as [HdL|HdL]; [contradiction|].
    destruct (StronglySorted_app_cross _ _ _ c d Hsorted Hc HdL) as [H|[H1 H2]];
      [left; lia | right; split; [lia | exact H2]].
Qed.

(** C4. When every pixel has red 0 or has all three channels above 240, the
    palette returned is empty. *)
Theorem C4_all_pixels_filtered_gives_empty_palette (pixelData : list Z) :
  (forall pixelIndex red green blue,
     (pixelIndex < length pixelData / 4)%nat ->
     pixelAt pixelData pixelIndex = (red, green, blue) ->
     red = 0 \/ (red > 240 /\ green > 240 /\ blue > 240)) ->
  getPalette pixelData = [].
Proof.
  intros H. unfold getPalette, scanPixels.
  rewrite fold_visit_all_skipped; [reflexivity|].
  apply List.Forall_forall. intros [[r g] b] Hin.
  apply pixelsOf_In in Hin as (i & Hi & E).
  apply skipped_iff. eapply H; eassumption.
Qed.

Lemma C4_witness :
  getPalette [255; 255; 255; 255;  0; 10; 10; 255;  241; 250; 255; 0] = [].
Proof.
  apply (C4_all_pixels_filtered_gives_empty_palette
           [255; 255; 255; 255;  0; 10; 10; 255;  241; 250; 255; 0]).
  intros pixelIndex red green blue Hi E.
  cbn in Hi.
  destruct pixelIndex as [|[|[|n]]]; [| | |lia];
    vm_compute in E; injection E as <- <- <-; lia.
Defined.

(** C9. Of two colours of the returned palette that occur in equally many
    pixels, the one standing first is the one whose first pixel comes earlier
    in the scan; [firstIndex] is the index of that first pixel. *)
Theorem C9_ties_keep_first_encounter_order
    (pixelData : list Z) (i j : nat) (c d : rgb) :
  (i < j)%nat ->
  nth_error (getPalette pixelData) i = Some c ->
  nth_error (getPalette pixelData) j = Some d ->
  occurrences c (pixelsOf pixelData) = occurrences d (pixelsOf pixelData) ->
  (firstIndex c (pixelsOf pixelData) < firstIndex d (pixelsOf pixelData))%nat /\
  nth_error (pixelsOf pixelData) (firstIndex c (pixelsOf pixelData)) = Some c /\
  nth_error (pixelsOf pixelData) (firstIndex d (pixelsOf pixelData)) = Some d /\
  (forall k, (k < firstIndex c (pixelsOf pixelData))%nat ->
             nth_error (pixelsOf pixelData) k <> Some c) /\
  (forall k, (k < firstIndex d (pixelsOf pixelData))%nat ->
             nth_error (pixelsOf pixelData) k <> Some d).
Proof.
  intros Hij Hi Hj Heq.
  pose proof (getPalette_In pixelData c (nth_error_In _ _ Hi)) as [Hc _].
  pose proof (getPalette_In pixelData d (nth_error_In _ _ Hj)) as [Hd _].
  repeat split.
  - destruct (StronglySorted_nth_error _ _ i j c d
                (getPalette_ranked pixelData) Hij Hi Hj) as [H|[_ H]];
      [lia | exact H].
  - apply firstIndex_nth; assumption.
  - apply firstIndex_nth; assumption.
  - intros k. apply firstIndex_first.
  - intros k. apply firstIndex_first.
Qed.

Lemma C9_witness :
  (firstIndex (10, 20, 30)%Z (pixelsOf tieFavicon)
   < firstIndex (1, 2, 3)%Z (pixelsOf tieFavicon))%nat.
Proof.
  refine (proj1 (C9_ties_keep_first_encounter_order
                   tieFavicon 0 1 (10, 20, 30) (1, 2, 3) _ _ _ _)).
  - lia.
  - reflexivity.
  - reflexivity.
  - reflexivity.
Defined.

(** C10. The colours of the returned palette are pairwise distinct, and each
    is the colour of a pixel of the buffer that passes the filter. *)
Theorem C10_palette_colours_distinct_and_from_qualifying_pixels
    (pixelData : list Z) :
  NoDup (getPalette pixelData) /\
  (forall red green blue,
     In (red, green, blue) (getPalette pixelData) ->
     (exists pixelIndex,
        (pixelIndex < length pixelData / 4)%nat /\
        pixelAt pixelData pixelIndex = (red, green, blue)) /\
     red <> 0 /\ ~ (red > 240 /\ green > 240 /\ blue > 240)).
Proof.
  split; [apply getPalette_NoDup|].
  intros red green blue H. apply getPalette_In in H as [Hin Hs].
  split; [apply pixelsOf_In; exact Hin|].
  assert (Hn : ~ (red = 0 \/ (red > 240 /\ green > 240 /\ blue > 240))).
  { rewrite <- skipped_iff. congruence. }
  tauto.
Qed.

(* ------------------------------------------------------------------ *)
(** ** Brightness and foreground                                       *)
(* ------------------------------------------------------------------ *)

Lemma Qgtb_true (x y : Q) : Qgtb x y = true <-> (y < x)%Q.
Proof.
  unfold Qgtb. rewrite negb_true_iff. split.
  - intros H. apply Qnot_le_lt. intros Hle.
    apply Qle_bool_iff in Hle. congruence.
  - intros H. destruct (Qle_bool x y) eqn:E; [|reflexivity].
    apply Qle_bool_iff in E. exfalso. eapply Qlt_not_le; eassumption.
Qed.

Lemma Qgtb_false (x y : Q) : Qgtb x y = false <-> (x <= y)%Q.
Proof.
  unfold Qgtb. rewrite negb_false_iff. apply Qle_bool_iff.
Qed.

Lemma Qgtb_Qeq (x x' y : Q) : (x == x')%Q -> Qgtb x y = Qgtb x' y.
Proof.
  intros E. unfold Qgtb. f_equal.
  destruct (Qle_bool x' y) eqn:E'.
  - apply Qle_bool_iff. rewrite E. apply Qle_bool_iff. exact E'.
  - destruct (Qle_bool x y) eqn:E''; [|reflexivity].
    apply Qle_bool_iff in E''. rewrite E in E''.
    apply Qle_bool_iff in E''. congruence.
Qed.

Section Resolver.
Context `{Ch : Chroma}.

Lemma accentFg_written_000 (bg fg : Color) (b : bool) (browser : StyleProps) :
  Part000.setAccentColors bg fg b browser !! "--colorAccentFg"%string
  = Some (css fg).
Proof.
  cbv beta zeta delta [Part000.setAccentColors setColor].
  rewrite !lookup_insert_ne by discriminate.
  apply lookup_insert_eq.
Qed.

Lemma accentFg_written_001 (bg : Color) (b : bool) (browser : StyleProps) :
  Part001.setAccentColors bg b browser !! "--colorAccentFg"%string
  = Some (css (if b then BLACK else WHITE)).
Proof.
  cbv beta zeta delta [Part001.setAccentColors setColor].
  rewrite !lookup_insert_ne by discriminate.
  apply lookup_insert_eq.
Qed.

End Resolver.

(** C6. Whether a colour is bright depends on its luminance alone, with the
    threshold 0.4: above it the colour is bright and the foreground is
    [chroma('#000')], at or below it the foreground is [chroma('#FFF')].  The
    foreground is what an inactive tab receives as [style.color] and what an
    active tab puts in [--colorAccentFg], in part_000 (web pages) and in
    color_tabs.js. *)
Theorem C6_bright_above_luminance_threshold
    (Ch : Chroma) (c : Color) (tab : Tab) (accentOnWindow : bool)
    (browser : StyleProps) :
  let fg := if Part000.isBright c then chroma_css "#000" else chroma_css "#FFF" in
  (Part000.isBright c = true <-> (0.4 < luminance c)%Q) /\
  (Part000.isBright c = false <-> (luminance c <= 0.4)%Q) /\
  (forall c', (luminance c == luminance c')%Q ->
              Part000.isBright c = Part000.isBright c') /\
  Part000.foreground (Part000.isBright c) = fg /\
  (tab_active tab = false ->
     style_color (snd (Part000.applyStyle tab false accentOnWindow c browser))
       = Some (css fg) /\
     style_color (snd (ColorTabsJs.applyStyle tab c browser)) = Some (css fg)) /\
  (tab_active tab = true ->
     fst (Part000.applyStyle tab false accentOnWindow c browser)
       !! "--colorAccentFg"%string = Some (css fg) /\
     fst (ColorTabsJs.applyStyle tab c browser)
       !! "--colorAccentFg"%string = Some (css fg)).
Proof.
  cbv zeta. unfold Part000.isBright.
  split; [apply Qgtb_true|]. split; [apply Qgtb_false|].
  split; [intros c' E; apply Qgtb_Qeq; exact E|].
  split; [reflexivity|]. split.
  - intros Ha. unfold Part000.applyStyle, ColorTabsJs.applyStyle,
      Part000.isTabActive, Part000.isBright, Part000.foreground.
    rewrite Ha. simpl. split; reflexivity.
  - intros Ha. unfold Part000.applyStyle, ColorTabsJs.applyStyle,
      Part000.isTabActive, Part000.isBright, Part000.foreground,
      ColorTabsJs.setAccentColors.
    rewrite Ha. simpl. split.
    + destruct accentOnWindow; simpl; rewrite accentFg_written_000; reflexivity.
    + rewrite accentFg_written_001. reflexivity.
Qed.

Lemma C6_witness :
  style_color
    (snd (@Part000.applyStyle Swatch.chroma (webTab None false) false false
            (Swatch.of_rgb pureRed) ∅))
  = Some "#FFF"%string.
Proof.
  refine (proj1 (proj1 (proj2 (proj2 (proj2 (proj2
            (C6_bright_above_luminance_threshold Swatch.chroma
               (Swatch.of_rgb pureRed) (webTab None false) false ∅))))) _)).
  reflexivity.
Defined.

(* ------------------------------------------------------------------ *)
(** ** Reset                                                           *)
(* ------------------------------------------------------------------ *)

(** C8. In part_000, when accent-from-page is off or tab transparency is on,
    a recompute removes the inline background and foreground declarations of
    every tab of the strip, and changes nothing else. *)
Theorem C8_reset_clears_inline_colours_of_every_tab
    (Ch : Chroma) (theme : Theme) (browser : StyleProps) (tabs : list Tab) :
  accentFromPage theme = false \/ transparencyTabs theme = true ->
  Part000.colorTabs theme browser tabs =
    (browser,
     map (fun tab => mkTab (tab_active tab) (tab_img tab) (tab_chromeTabUrl tab)
                           None None) tabs) /\
  List.Forall (fun tab => style_backgroundColor tab = None /\ style_color tab = None)
              (snd (Part000.colorTabs theme browser tabs)).
Proof.
  intros H.
  assert (E : accentFromPage theme && negb (transparencyTabs theme) = false).
  { destruct H as [-> | ->]; [reflexivity | apply andb_false_r]. }
  unfold Part000.colorTabs. rewrite E. split; [reflexivity|].
  simpl. apply List.Forall_forall. intros t Ht.
  apply List.in_map_iff in Ht as (t0 & <- & _). split; reflexivity.
Qed.

Lemma C8_witness :
  @Part000.colorTabs Swatch.chroma
    (mkTheme false false false "#39F" 1) ∅
    [mkTab false (Some redFavicon) (Some "https://example.org/"%string)
           (Some "rgb(255,0,0)"%string) (Some "#000"%string);
     mkTab true None (Some "chrome://settings"%string)
           (Some "var(--colorBg)"%string) None]
  = (∅,
     [mkTab false (Some redFavicon) (Some "https://example.org/"%string) None None;
      mkTab true None (Some "chrome://settings"%string) None None]).
Proof.
  refine (proj1 (C8_reset_clears_inline_colours_of_every_tab
                   Swatch.chroma (mkTheme false false false "#39F" 1) ∅ _ _)).
  left. reflexivity.
Defined.

(* ------------------------------------------------------------------ *)
(** ** Saturation remap                                                *)
(* ------------------------------------------------------------------ *)



Section AccentBg.
Context `{Ch : Chroma}.



End AccentBg.




(* ------------------------------------------------------------------ *)
(** ** The base accent colour                                          *)
(* ------------------------------------------------------------------ *)




(* ------------------------------------------------------------------ *)
(** ** Internal pages                                                  *)
(* ------------------------------------------------------------------ *)

Lemma isInternalPage_prefix (url : string) :
  Part000.isInternalPage url = true <->
  String.prefix "chrome://" url = true \/
  String.prefix "vivaldi://" url = true \/
  String.prefix "devtools://" url = true \/
  String.prefix "chrome-extension://" url = true.
Proof.
  unfold Part000.isInternalPage, Part000.INTERNAL_PAGES. simpl.
  rewrite !orb_true_iff. intuition discriminate.
Qed.

(** In part_000 the outcome for a tab of an internal page does not depend on
    its favicon: an inactive tab receives [var(--colorBgDark)] and
    [var(--colorFg)] and [#browser] is not written; an active one receives
    [var(--colorBg)] or [var(--colorAccentBg)] and [var(--colorFg)], with the
    accent properties written from the theme's accent. *)
Theorem part000_internal_page_neutral
    (Ch : Chroma) (tab : Tab) (url : string) (accentOnWindow : bool)
    (colorAccentBg : Color) (accentSaturationLimit : Q) (browser : StyleProps) :
  tab_chromeTabUrl tab = Some url ->
  (String.prefix "chrome://" url = true \/
   String.prefix "vivaldi://" url = true \/
   String.prefix "devtools://" url = true \/
   String.prefix "chrome-extension://" url = true) ->
  let accent := Part000.remapSaturation colorAccentBg accentSaturationLimit in
  Part000.setTabColor tab accentOnWindow colorAccentBg accentSaturationLimit browser
  = (if tab_active tab then
       Completed
         (Part000.setAccentColors accent
            (Part000.foreground (Part000.isBright accent))
            (Part000.isBright accent) browser)
         (mkTab true (tab_img tab) (Some url)
            (Some (if accentOnWindow then "var(--colorBg)"
                   else "var(--colorAccentBg)")%string)
            (Some "var(--colorFg)"%string))
     else
       Completed browser
         (mkTab false (tab_img tab) (Some url)
            (Some "var(--colorBgDark)"%string) (Some "var(--colorFg)"%string))).
Proof.
  intros Hurl Hint. apply isInternalPage_prefix in Hint. cbv zeta.
  unfold Part000.setTabColor, Part000.pickAccent, Part000.applyStyle,
    Part000.isTabActive.
  rewrite Hurl, Hint. simpl.
  destruct (tab_active tab) eqn:Ha; unfold set_color, set_backgroundColor;
    simpl; rewrite ?Ha, ?Hurl; reflexivity.
Qed.

Lemma part000_internal_page_neutral_witness :
  @Part000.setTabColor Swatch.chroma (settingsTab (Some redFavicon) false)
    false (Swatch.of_css "#39F") 1 ∅
  = Completed ∅
      (mkTab false (Some redFavicon) (Some "chrome://settings"%string)
         (Some "var(--colorBgDark)"%string) (Some "var(--colorFg)"%string)).
Proof.
  refine (part000_internal_page_neutral Swatch.chroma
            (settingsTab (Some redFavicon) false) "chrome://settings"
            false (Swatch.of_css "#39F") 1 ∅ _ _).
  - reflexivity.
  - left. reflexivity.
Defined.

(** C7 on part_001: [#isInternalPage] yields [undefined] for every URL, so
    the inactive tab of [chrome://settings] with a red favicon is coloured
    from the favicon: its background is the CSS text of the remapped
    [chroma([255, 0, 0])]. *)
Theorem C7_part001_internal_page_takes_favicon_colour
    (Ch : Chroma) (theme : Theme) (browser : StyleProps) :
  let accent :=
    set_hsl_s (chroma_rgb pureRed)
              (get_hsl_s (chroma_rgb pureRed) * accentSaturationLimit theme) in
  String.prefix "chrome://" "chrome://settings" = true /\
  Part001.isInternalPage "chrome://settings" = None /\
  getPalette redFavicon = [pureRed] /\
  Part001.setTabColor (settingsTab (Some redFavicon) false) theme browser
  = Completed browser
      (mkTab false (Some redFavicon) (Some "chrome://settings"%string)
         (Some (css accent))
         (Some (css (if Qgtb (luminance accent) 0.4 then BLACK else WHITE)))).
Proof.
  cbv zeta. repeat split; reflexivity.
Qed.

(* ================================================================== *)
(** * Further properties                                               *)
(* ================================================================== *)

(* ------------------------------------------------------------------ *)
(** ** A pass over the tabs                                            *)
(* ------------------------------------------------------------------ *)

Section PassFacts.
Context {V A : Type}.
Variables (view : StyleProps -> V) (runs : Tab -> V -> bool)
          (accent : Tab -> V -> option A) (restyle : Tab -> V -> Tab)
          (write : A -> StyleProps -> StyleProps)
          (f : Tab -> StyleProps -> Outcome).

Lemma sameTab_refl (t : Tab) : sameTab t t.
Proof. repeat split. Qed.

Lemma writeAccent_view (a : option A) (browser : StyleProps) :
  passShape view runs accent restyle write f ->
  view (writeAccent write a browser) = view browser.
Proof.
  intros H. destruct a as [a|]; simpl; [apply (shape_view _ _ _ _ _ _ H) | reflexivity].
Qed.

Lemma writeAccent_over (a : A) (a' : option A) (browser : StyleProps) :
  passShape view runs accent restyle write f ->
  write a (writeAccent write a' browser) = write a browser.
Proof.
  intros H. destruct a' as [a'|]; simpl; [apply (shape_over _ _ _ _ _ _ H) | reflexivity].
Qed.

(** The outcome of the pass: [#browser] carries the accent of the last tab
    that wrote one, and each tab is the one its own call left. *)
Lemma forEachTab_shape (tabs : list Tab) (browser : StyleProps) :
  passShape view runs accent restyle write f ->
  forEachTab f tabs browser
  = (writeAccent write (lastAccent runs accent tabs (view browser)) browser,
     map (restyleTab runs restyle (view browser)) tabs).
Proof.
  intros H. revert browser.
  induction tabs as [|tab rest IH]; intro browser; simpl; [reflexivity|].
  unfold restyleTab at 1.
  destruct (runs tab (view browser)) eqn:Hr.
  - rewrite (shape_runs _ _ _ _ _ _ H tab browser Hr), IH.
    rewrite writeAccent_view by exact H.
    destruct (lastAccent runs accent rest (view browser)) as [a|]; simpl.
    + rewrite writeAccent_over by exact H. reflexivity.
    + reflexivity.
  - destruct (shape_stops _ _ _ _ _ _ H tab browser Hr) as [-> | ->];
      rewrite IH;
      destruct (lastAccent runs accent rest (view browser)); reflexivity.
Qed.

Lemma restyleTab_same (v : V) (tab : Tab) :
  passShape view runs accent restyle write f ->
  sameTab tab (restyleTab runs restyle v tab).
Proof.
  intros H. unfold restyleTab.
  destruct (runs tab v); [apply (shape_same _ _ _ _ _ _ H) | apply sameTab_refl].
Qed.

Lemma restyleTab_fix (v : V) (tab : Tab) :
  passShape view runs accent restyle write f ->
  restyleTab runs restyle v (restyleTab runs restyle v tab)
  = restyleTab runs restyle v tab.
Proof.
  intros H. unfold restyleTab at 2 3. destruct (runs tab v) eqn:Hr.
  - unfold restyleTab.
    rewrite (shape_runs_fix _ _ _ _ _ _ H tab (restyle tab v) v
               (shape_same _ _ _ _ _ _ H tab v)), Hr.
    apply (shape_restyle_fix _ _ _ _ _ _ H).
  - unfold restyleTab. rewrite Hr. reflexivity.
Qed.

Lemma lastAccent_restyled (v : V) (tabs : list Tab) :
  passShape view runs accent restyle write f ->
  lastAccent runs accent (map (restyleTab runs restyle v) tabs) v
  = lastAccent runs accent tabs v.
Proof.
  intros H. induction tabs as [|tab rest IH]; simpl; [reflexivity|].
  rewrite IH.
  pose proof (restyleTab_same v tab H) as Hs.
  rewrite (shape_runs_fix _ _ _ _ _ _ H _ _ v Hs),
          (shape_accent_fix _ _ _ _ _ _ H _ _ v Hs).
  reflexivity.
Qed.

Lemma lastAccent_app (v : V) (l1 l2 : list Tab) :
  lastAccent runs accent (l1 ++ l2) v
  = match lastAccent runs accent l2 v with
    | Some a => Some a
    | None => lastAccent runs accent l1 v
    end.
Proof.
  induction l1 as [|t l1 IH]; simpl.
  - destruct (lastAccent runs accent l2 v); reflexivity.
  - rewrite IH. destruct (lastAccent runs accent l2 v); reflexivity.
Qed.

(** A second pass over what a pass left changes nothing. *)
Lemma forEachTab_idempotent (tabs : list Tab) (browser : StyleProps) :
  passShape view runs accent restyle write f ->
  forEachTab f (snd (forEachTab f tabs browser)) (fst (forEachTab f tabs browser))
  = forEachTab f tabs browser.
Proof.
  intros H. rewrite (forEachTab_shape tabs browser H). simpl.
  rewrite forEachTab_shape by exact H.
  rewrite writeAccent_view by exact H.
  rewrite lastAccent_restyled by exact H.
  f_equal.
  - destruct (lastAccent runs accent tabs (view browser)) as [a|]; simpl;
      [apply (shape_over _ _ _ _ _ _ H) | reflexivity].
  - rewrite List.map_map. apply List.map_ext. intros t.
    apply restyleTab_fix; exact H.
Qed.

End PassFacts.

Section AbortingPassFacts.
Context {V A : Type}.
Variables (view : StyleProps -> V) (runs aborts : Tab -> V -> bool)
          (accent : Tab -> V -> option A) (restyle : Tab -> V -> Tab)
          (write : A -> StyleProps -> StyleProps)
          (f : Tab -> StyleProps -> Outcome).

(** The outcome of a pass that an exception may end. *)
Lemma forEachTab_ashape (tabs : list Tab) (browser : StyleProps) :
  abortingShape view runs aborts accent restyle write f ->
  forEachTab f tabs browser
  = (writeAccent write (passAccent runs aborts accent tabs (view browser)) browser,
     passTabs runs aborts restyle tabs (view browser)).
Proof.
  intros H. revert browser.
  induction tabs as [|tab rest IH]; intro browser; simpl; [reflexivity|].
  destruct (runs tab (view browser)) eqn:Hr.
  - rewrite (ashape_runs _ _ _ _ _ _ _ H tab browser Hr), IH.
    assert (Hv : view (writeAccent write (accent tab (view browser)) browser)
                 = view browser).
    { destruct (accent tab (view browser)); simpl;
        [apply (ashape_view _ _ _ _ _ _ _ H) | reflexivity]. }
    rewrite Hv.
    destruct (passAccent runs aborts accent rest (view browser)) as [a|]; simpl.
    + destruct (accent tab (view browser)); simpl;
        [rewrite (ashape_over _ _ _ _ _ _ _ H) | ]; reflexivity.
    + reflexivity.
  - destruct (aborts tab (view browser)) eqn:Ha.
    + rewrite (ashape_aborts _ _ _ _ _ _ _ H tab browser Hr Ha). reflexivity.
    + destruct (ashape_stops _ _ _ _ _ _ _ H tab browser Hr Ha) as [-> | ->];
        rewrite IH; reflexivity.
Qed.

Lemma passTabs_same (tabs : list Tab) (v : V) :
  abortingShape view runs aborts accent restyle write f ->
  Forall2 sameTab tabs (passTabs runs aborts restyle tabs v).
Proof.
  intros H. induction tabs as [|tab rest IH]; simpl; [constructor|].
  destruct (runs tab v).
  - constructor; [apply (ashape_same _ _ _ _ _ _ _ H) | exact IH].
  - destruct (aborts tab v).
    + constructor; [apply sameTab_refl|].
      clear. induction rest; constructor; [apply sameTab_refl | assumption].
    + constructor; [apply sameTab_refl | exact IH].
Qed.

Lemma passTabs_fix (tabs : list Tab) (v : V) :
  abortingShape view runs aborts accent restyle write f ->
  passTabs runs aborts restyle (passTabs runs aborts restyle tabs v) v
  = passTabs runs aborts restyle tabs v /\
  passAccent runs aborts accent (passTabs runs aborts restyle tabs v) v
  = passAccent runs aborts accent tabs v.
Proof.
  intros H. induction tabs as [|tab rest [IH1 IH2]]; simpl; [split; reflexivity|].
  destruct (runs tab v) eqn:Hr.
  - simpl.
    rewrite (ashape_runs_fix _ _ _ _ _ _ _ H tab (restyle tab v) v
               (ashape_same _ _ _ _ _ _ _ H tab v)), Hr.
    rewrite (ashape_restyle_fix _ _ _ _ _ _ _ H), IH1, IH2.
    rewrite (ashape_accent_fix _ _ _ _ _ _ _ H tab (restyle tab v) v
               (ashape_same _ _ _ _ _ _ _ H tab v)).
    split; reflexivity.
  - destruct (aborts tab v) eqn:Ha; simpl; rewrite Hr, Ha.
    + split; reflexivity.
    + rewrite IH1, IH2. split; reflexivity.
Qed.

(** A second pass over what a pass left changes nothing. *)
Lemma forEachTab_aidempotent (tabs : list Tab) (browser : StyleProps) :
  abortingShape view runs aborts accent restyle write f ->
  forEachTab f (snd (forEachTab f tabs browser)) (fst (forEachTab f tabs browser))
  = forEachTab f tabs browser.
Proof.
  intros H. rewrite (forEachTab_ashape tabs browser H). cbn [fst snd].
  rewrite forEachTab_ashape by exact H.
  assert (Hv : view (writeAccent write
                       (passAccent runs aborts accent tabs (view browser)) browser)
               = view browser).
  { destruct (passAccent runs aborts accent tabs (view browser)); simpl;
      [apply (ashape_view _ _ _ _ _ _ _ H) | reflexivity]. }
  rewrite Hv.
  destruct (passTabs_fix tabs (view browser) H) as [-> ->].
  f_equal.
  destruct (passAccent runs aborts accent tabs (view browser)); simpl;
    [apply (ashape_over _ _ _ _ _ _ _ H) | reflexivity].
Qed.


End AbortingPassFacts.

(* ------------------------------------------------------------------ *)
(** ** The writes to [#browser]                                        *)
(* ------------------------------------------------------------------ *)

Section AccentWrites.
Context `{Ch : Chroma}.

Lemma setAccentColors000_lookup (bg fg : Color) (b : bool)
    (browser : StyleProps) (k : string) :
  Part000.setAccentColors bg fg b browser !! k
  = if bool_decide (k ∈ accentProperties)
    then Part000.setAccentColors bg fg b ∅ !! k
    else browser !! k.
Proof.
  cbv beta zeta delta [Part000.setAccentColors setColor accentProperties].
  rewrite !lookup_insert, lookup_empty.
  case_bool_decide as Hin; repeat case_decide; try reflexivity; exfalso.
  all: first
    [ rewrite !elem_of_cons, elem_of_nil in Hin; intuition congruence
    | apply Hin; subst k; rewrite !elem_of_cons;
      repeat (first [left; reflexivity | right]) ].
Qed.

Lemma setAccentColors001_lookup (bg : Color) (b : bool)
    (browser : StyleProps) (k : string) :
  Part001.setAccentColors bg b browser !! k
  = if bool_decide (k ∈ accentProperties)
    then Part001.setAccentColors bg b ∅ !! k
    else browser !! k.
Proof.
  cbv beta zeta delta [Part001.setAccentColors setColor accentProperties].
  rewrite !lookup_insert, lookup_empty.
  case_bool_decide as Hin; repeat case_decide; try reflexivity; exfalso.
  all: first
    [ rewrite !elem_of_cons, elem_of_nil in Hin; intuition congruence
    | apply Hin; subst k; rewrite !elem_of_cons;
      repeat (first [left; reflexivity | right]) ].
Qed.

End AccentWrites.

Section Shapes.
Context `{Ch : Chroma}.

Lemma write000_over (c c' : Color) (browser : StyleProps) :
  write000 c (write000 c' browser) = write000 c browser.
Proof.
  apply map_eq. intros k. unfold write000.
  rewrite (setAccentColors000_lookup c _ _ (Part000.setAccentColors _ _ _ browser)),
          (setAccentColors000_lookup c' _ _ browser),
          (setAccentColors000_lookup c _ _ browser).
  case_bool_decide; reflexivity.
Qed.

Lemma write001_over (c c' : Color) (browser : StyleProps) :
  write001 c (write001 c' browser) = write001 c browser.
Proof.
  apply map_eq. intros k. unfold write001.
  rewrite (setAccentColors001_lookup c _ (Part001.setAccentColors _ _ browser)),
          (setAccentColors001_lookup c' _ browser),
          (setAccentColors001_lookup c _ browser).
  case_bool_decide; reflexivity.
Qed.

Lemma colorBg_not_accent : ("--colorBg"%string ∈ accentProperties) -> False.
Proof.
  unfold accentProperties. rewrite !elem_of_cons, elem_of_nil.
  intuition discriminate.
Qed.

Lemma write001_view (c : Color) (browser : StyleProps) :
  viewJs (write001 c browser) = viewJs browser.
Proof.
  unfold viewJs, getPropertyValue, write001.
  rewrite setAccentColors001_lookup.
  rewrite bool_decide_eq_false_2 by exact colorBg_not_accent. reflexivity.
Qed.

Lemma part000_shape (accentOnWindow : bool) (colorAccentBg : Color) (limit : Q) :
  passShape (fun _ => tt) runs000 (accent000 colorAccentBg limit)
            (restyle000 accentOnWindow colorAccentBg limit) write000
            (fun tab => Part000.setTabColor tab accentOnWindow colorAccentBg limit).
Proof.
  split.
  - intros tab browser.
    unfold runs000, accent000, restyle000, Part000.setTabColor.
    destruct (tab_chromeTabUrl tab) as [url|]; [intros _ | discriminate].
    fold (colour000 colorAccentBg limit tab url).
    generalize (colour000 colorAccentBg limit tab url) as c. intros c.
    unfold Part000.applyStyle, Part000.isTabActive, write000, completed.
    destruct (Part000.isInternalPage url), (tab_active tab), accentOnWindow;
      reflexivity.
  - intros tab browser. unfold runs000, Part000.setTabColor.
    destruct (tab_chromeTabUrl tab); [discriminate | right; reflexivity].
  - reflexivity.
  - intros; apply write000_over.
  - intros tab v. unfold restyle000, sameTab.
    destruct (tab_chromeTabUrl tab) as [url|] eqn:Hu; [|repeat split; exact Hu].
    generalize (colour000 colorAccentBg limit tab url) as c. intros c.
    unfold Part000.applyStyle, Part000.isTabActive.
    destruct (Part000.isInternalPage url), (tab_active tab) eqn:Ha, accentOnWindow;
      cbn [snd set_color set_backgroundColor tab_active tab_img tab_chromeTabUrl];
      rewrite ?Ha, ?Hu; repeat split.
  - intros tab tab' v (Ha & Hi & Hu). unfold runs000. rewrite Hu. reflexivity.
  - intros tab tab' v (Ha & Hi & Hu).
    unfold accent000, colour000, Part000.pickAccent. rewrite Hu, Ha, Hi. reflexivity.
  - intros tab v. unfold restyle000.
    destruct (tab_chromeTabUrl tab) as [url|] eqn:Hu; [|rewrite Hu; reflexivity].
    assert (Hc : forall t, tab_img t = tab_img tab ->
                 colour000 colorAccentBg limit t url
                 = colour000 colorAccentBg limit tab url).
    { intros t Ht. unfold colour000, Part000.pickAccent. rewrite Ht. reflexivity. }
    revert Hc. generalize (colour000 colorAccentBg limit tab url) as c. intros c Hc.
    unfold Part000.applyStyle, Part000.isTabActive.
    destruct (Part000.isInternalPage url) eqn:Hint, (tab_active tab) eqn:Ha,
             accentOnWindow;
      cbn [snd set_color set_backgroundColor tab_active tab_img tab_chromeTabUrl];
      rewrite ?Hu, ?Ha;
      cbn [snd set_color set_backgroundColor tab_active tab_img tab_chromeTabUrl];
      rewrite ?Hint, ?Hc by reflexivity;
      cbn [snd set_color set_backgroundColor tab_active tab_img tab_chromeTabUrl];
      rewrite ?Ha; reflexivity.
Qed.

Lemma part001_shape (theme : Theme) :
  passShape (fun _ => tt) (runs001 theme) (accent001 theme) (restyle001 theme)
            write001 (fun tab => Part001.setTabColor tab theme).
Proof.
  split.
  - intros tab browser.
    unfold runs001, accent001, restyle001, colour001, Part001.setTabColor.
    destruct (tab_chromeTabUrl tab) as [url|]; [|discriminate].
    destruct (Part001.pickAccent tab (Part001.isInternalPage url)
                (chroma_css (colorAccentBg theme))) as [c0|]; [intros _|discriminate].
    generalize (Part001.remapSaturation c0 (accentSaturationLimit theme)) as c.
    intros c. unfold Part001.applyStyle, write001, completed.
    destruct (tab_active tab); reflexivity.
  - intros tab browser. unfold runs001, colour001, Part001.setTabColor.
    destruct (tab_chromeTabUrl tab) as [url|]; [|right; reflexivity].
    destruct (Part001.pickAccent tab (Part001.isInternalPage url)
                (chroma_css (colorAccentBg theme))); [discriminate | left; reflexivity].
  - reflexivity.
  - intros; apply write001_over.
  - intros tab v. unfold restyle001, sameTab.
    destruct (colour001 theme tab) as [c|]; [|repeat split].
    unfold Part001.applyStyle. destruct (tab_active tab) eqn:Ha;
      cbn [snd set_color set_backgroundColor tab_active tab_img tab_chromeTabUrl];
      rewrite ?Ha; repeat split.
  - intros tab tab' v (Ha & Hi & Hu).
    unfold runs001, colour001, Part001.pickAccent. rewrite Hu, Hi. reflexivity.
  - intros tab tab' v (Ha & Hi & Hu).
    unfold accent001, colour001, Part001.pickAccent. rewrite Hu, Ha, Hi. reflexivity.
  - intros tab v. unfold restyle001.
    destruct (colour001 theme tab) as [c|] eqn:Hc; [|rewrite Hc; reflexivity].
    assert (Hc' : forall t, tab_img t = tab_img tab ->
                  tab_chromeTabUrl t = tab_chromeTabUrl tab ->
                  colour001 theme t = Some c).
    { intros t Hi Hu. rewrite <- Hc. unfold colour001, Part001.pickAccent.
      rewrite Hu, Hi. reflexivity. }
    unfold Part001.applyStyle. destruct (tab_active tab) eqn:Ha;
      cbn [snd set_color set_backgroundColor tab_active tab_img tab_chromeTabUrl].
    + rewrite Hc, Ha. reflexivity.
    + rewrite Hc' by reflexivity.
      cbn [snd set_color set_backgroundColor tab_active tab_img tab_chromeTabUrl].
      rewrite Ha. reflexivity.
Qed.

Lemma colortabsjs_shape :
  abortingShape viewJs runsJs abortsJs accentJs restyleJs write001
                ColorTabsJs.setTabColor.
Proof.
  split.
  - intros tab browser.
    unfold runsJs, accentJs, restyleJs, colourJs, ColorTabsJs.setTabColor,
      ColorTabsJs.pickAccent, viewJs.
    destruct (tab_img tab) as [image|].
    + destruct (getPalette image) as [|first rest]; [discriminate | intros _].
      generalize (ColorTabsJs.remapSaturation (chroma_rgb first)) as c. intros c.
      unfold ColorTabsJs.applyStyle, ColorTabsJs.setAccentColors, write001, completed.
      destruct (tab_active tab); reflexivity.
    + cbv zeta.
      destruct (chroma_valid (getPropertyValue "--colorBg" browser));
        [intros _ | discriminate].
      generalize (ColorTabsJs.remapSaturation
                    (chroma_css (getPropertyValue "--colorBg" browser))) as c.
      intros c.
      unfold ColorTabsJs.applyStyle, ColorTabsJs.setAccentColors, write001, completed.
      destruct (tab_active tab); reflexivity.
  - intros tab browser.
    unfold runsJs, abortsJs, colourJs, ColorTabsJs.setTabColor,
      ColorTabsJs.pickAccent, viewJs.
    destruct (tab_img tab) as [image|]; [discriminate|]. cbv zeta.
    destruct (chroma_valid (getPropertyValue "--colorBg" browser));
      [discriminate | reflexivity].
  - intros tab browser.
    unfold runsJs, abortsJs, colourJs, ColorTabsJs.setTabColor,
      ColorTabsJs.pickAccent, viewJs.
    destruct (tab_img tab) as [image|].
    + destruct (getPalette image); [left; reflexivity | discriminate].
    + cbv zeta.
      destruct (chroma_valid (getPropertyValue "--colorBg" browser)); discriminate.
  - intros; apply write001_view.
  - intros; apply write001_over.
  - intros tab v. unfold restyleJs, sameTab.
    destruct (colourJs tab v) as [c|]; [|repeat split].
    unfold ColorTabsJs.applyStyle. destruct (tab_active tab) eqn:Ha;
      cbn [snd set_color set_backgroundColor tab_active tab_img tab_chromeTabUrl];
      rewrite ?Ha; repeat split.
  - intros tab tab' v (Ha & Hi & Hu). unfold runsJs, colourJs. rewrite Hi. reflexivity.
  - intros tab tab' v (Ha & Hi & Hu).
    unfold accentJs, colourJs. rewrite Ha, Hi. reflexivity.
  - intros tab v. unfold restyleJs.
    destruct (colourJs tab v) as [c|] eqn:Hc; [|rewrite Hc; reflexivity].
    assert (Hc' : forall t, tab_img t = tab_img tab -> colourJs t v = Some c).
    { intros t Hi. rewrite <- Hc. unfold colourJs. rewrite Hi. reflexivity. }
    unfold ColorTabsJs.applyStyle. destruct (tab_active tab) eqn:Ha;
      cbn [snd set_color set_backgroundColor tab_active tab_img tab_chromeTabUrl].
    + rewrite Hc, Ha. reflexivity.
    + rewrite Hc' by reflexivity.
      cbn [snd set_color set_backgroundColor tab_active tab_img tab_chromeTabUrl].
      rewrite Ha. reflexivity.
Qed.

End Shapes.

(* ------------------------------------------------------------------ *)
(** ** Recomputes                                                      *)
(* ------------------------------------------------------------------ *)

Lemma Forall2_map_same (g : Tab -> Tab) (tabs : list Tab) :
  (forall t, sameTab t (g t)) -> Forall2 sameTab tabs (map g tabs).
Proof.
  intros H. induction tabs as [|t tabs IH]; simpl; constructor; auto.
Qed.

Lemma resetTabColor_same (t : Tab) : sameTab t (Part000.resetTabColor t).
Proof. repeat split. Qed.

(** X2. Running [#colorTabs] again on what it left changes nothing, in the
    three scripts: the delayed second run of a trigger is harmless when
    nothing else has changed in between. *)
Theorem recompute_idempotent
    (Ch : Chroma) (theme : Theme) (browser : StyleProps) (tabs : list Tab) :
  Part000.colorTabs theme (fst (Part000.colorTabs theme browser tabs))
                          (snd (Part000.colorTabs theme browser tabs))
  = Part000.colorTabs theme browser tabs /\
  Part001.colorTabs theme (fst (Part001.colorTabs theme browser tabs))
                          (snd (Part001.colorTabs theme browser tabs))
  = Part001.colorTabs theme browser tabs /\
  ColorTabsJs.colorTabs (fst (ColorTabsJs.colorTabs browser tabs))
                        (snd (ColorTabsJs.colorTabs browser tabs))
  = ColorTabsJs.colorTabs browser tabs.
Proof.
  split; [|split].
  - unfold Part000.colorTabs.
    destruct (accentFromPage theme && negb (transparencyTabs theme)).
    + eapply forEachTab_idempotent, part000_shape.
    + simpl. f_equal. rewrite List.map_map. reflexivity.
  - unfold Part001.colorTabs. eapply forEachTab_idempotent, part001_shape.
  - unfold ColorTabsJs.colorTabs. eapply forEachTab_aidempotent, colortabsjs_shape.
Qed.

Lemma writeAccent000_frame (Ch : Chroma) (a : option Color)
    (browser : StyleProps) (k : string) :
  ~ In k accentProperties ->
  writeAccent write000 a browser !! k = browser !! k.
Proof.
  intros Hk. destruct a as [c|]; simpl; [|reflexivity].
  unfold write000. rewrite setAccentColors000_lookup.
  rewrite bool_decide_eq_false_2; [reflexivity|].
  rewrite list_elem_of_In. exact Hk.
Qed.

Lemma writeAccent001_frame (Ch : Chroma) (a : option Color)
    (browser : StyleProps) (k : string) :
  ~ In k accentProperties ->
  writeAccent write001 a browser !! k = browser !! k.
Proof.
  intros Hk. destruct a as [c|]; simpl; [|reflexivity].
  unfold write001. rewrite setAccentColors001_lookup.
  rewrite bool_decide_eq_false_2; [reflexivity|].
  rewrite list_elem_of_In. exact Hk.
Qed.

(** X3. A recompute of any of the three scripts writes no custom property
    of [#browser] other than the eight accent properties, and it keeps the
    tabs, their order, their active state, favicon and chrome tab. *)
Theorem recompute_writes_only_accent_properties
    (Ch : Chroma) (theme : Theme) (browser : StyleProps) (tabs : list Tab)
    (property : string) :
  ~ In property accentProperties ->
  (fst (Part000.colorTabs theme browser tabs) !! property = browser !! property /\
   fst (Part001.colorTabs theme browser tabs) !! property = browser !! property /\
   fst (ColorTabsJs.colorTabs browser tabs) !! property = browser !! property) /\
  (Forall2 sameTab tabs (snd (Part000.colorTabs theme browser tabs)) /\
   Forall2 sameTab tabs (snd (Part001.colorTabs theme browser tabs)) /\
   Forall2 sameTab tabs (snd (ColorTabsJs.colorTabs browser tabs))).
Proof.
  intros Hk.
  unfold Part000.colorTabs, Part001.colorTabs, ColorTabsJs.colorTabs.
  rewrite (forEachTab_shape _ _ _ _ _ _ tabs browser (part001_shape theme)).
  rewrite (forEachTab_ashape _ _ _ _ _ _ _ tabs browser colortabsjs_shape).
  cbn [fst snd]. split; split.
  - destruct (accentFromPage theme && negb (transparencyTabs theme)).
    + rewrite (forEachTab_shape _ _ _ _ _ _ tabs browser
                 (part000_shape (accentOnWindow theme)
                    (chroma_css (colorAccentBg theme))
                    (accentSaturationLimit theme))).
      apply writeAccent000_frame; exact Hk.
    + reflexivity.
  - split; apply writeAccent001_frame; exact Hk.
  - destruct (accentFromPage theme && negb (transparencyTabs theme)).
    + rewrite (forEachTab_shape _ _ _ _ _ _ tabs browser
                 (part000_shape (accentOnWindow theme)
                    (chroma_css (colorAccentBg theme))
                    (accentSaturationLimit theme))).
      apply Forall2_map_same. intros t.
      eapply restyleTab_same, part000_shape.
    + apply Forall2_map_same, resetTabColor_same.
  - split.
    + apply Forall2_map_same; intros t. eapply restyleTab_same, part001_shape.
    + eapply passTabs_same, colortabsjs_shape.
Qed.

Lemma recompute_writes_only_accent_properties_witness :
  fst (@ColorTabsJs.colorTabs Swatch.chroma
         {["--colorBg"%string := "#222"%string]}
         [webTab (Some redFavicon) true; webTab None false])
    !! "--colorBg"%string
  = Some "#222"%string.
Proof.
  refine (proj2 (proj2 (proj1
            (recompute_writes_only_accent_properties Swatch.chroma
               (mkTheme true false false "#39F" 1)
               {["--colorBg"%string := "#222"%string]}
               [webTab (Some redFavicon) true; webTab None false]
               "--colorBg" _)))).
  unfold accentProperties. simpl. intuition discriminate.
Defined.




Lemma Forall2_diag {X : Type} (P : X -> X -> Prop) (l : list X) :
  (forall x, P x x) -> Forall2 P l l.
Proof. intros H. induction l; constructor; auto. Qed.

(** X5. In color_tabs.js and part_001 a recompute leaves an active tab, and
    a tab whose favicon has an empty palette, exactly as it was, inline
    colours included.  In color_tabs.js, when [chroma] parses the
    [--colorBg] of [#browser], every other tab ends with an inline
    background and an inline colour; when it does not, a tab without favicon
    and all the tabs after it are left as they were. *)
Theorem recompute_leaves_active_and_paletteless_tabs
    (Ch : Chroma) (theme : Theme) (browser : StyleProps) (tabs : list Tab) :
  Forall2
    (fun t t' =>
       (tab_active t = true -> t' = t) /\
       (forall image, tab_img t = Some image -> getPalette image = [] -> t' = t))
    tabs (snd (ColorTabsJs.colorTabs browser tabs)) /\
  Forall2
    (fun t t' =>
       (tab_active t = true -> t' = t) /\
       (forall image, tab_img t = Some image -> getPalette image = [] -> t' = t))
    tabs (snd (Part001.colorTabs theme browser tabs)) /\
  (chroma_valid (getPropertyValue "--colorBg" browser) = true ->
   Forall2
     (fun t t' =>
        tab_active t = false ->
        (forall image, tab_img t = Some image -> getPalette image <> []) ->
        exists bg fg,
          t' = mkTab false (tab_img t) (tab_chromeTabUrl t) (Some bg) (Some fg))
     tabs (snd (ColorTabsJs.colorTabs browser tabs))) /\
  (chroma_valid (getPropertyValue "--colorBg" browser) = false ->
   forall before tab after,
     tabs = before ++ tab :: after -> tab_img tab = None ->
     exists before',
       length before' = length before /\
       snd (ColorTabsJs.colorTabs browser tabs) = before' ++ tab :: after).
Proof.
  unfold ColorTabsJs.colorTabs, Part001.colorTabs.
  rewrite (forEachTab_ashape _ _ _ _ _ _ _ tabs browser colortabsjs_shape).
  rewrite (forEachTab_shape _ _ _ _ _ _ tabs browser (part001_shape theme)).
  cbn [snd]. split; [|split; [|split]].
  - induction tabs as [|t tabs IH]; simpl; [constructor|].
    unfold runsJs, restyleJs, colourJs, abortsJs, ColorTabsJs.applyStyle.
    destruct (tab_img t) as [image|] eqn:Hi.
    + destruct (getPalette image) as [|first rest] eqn:Hg.
      * constructor; [split; reflexivity | exact IH].
      * constructor; [|exact IH]. split.
        -- intros Ha. rewrite Ha. reflexivity.
        -- intros image' E Hg'. congruence.
    + destruct (chroma_valid (viewJs browser)); simpl.
      * constructor; [|exact IH]. split; [|intros image' E; congruence].
        intros Ha. rewrite Ha. reflexivity.
      * apply Forall2_diag. intros x. split; reflexivity.
  - induction tabs as [|t tabs IH]; simpl; constructor; [|exact IH].
    unfold restyleTab, runs001, restyle001, colour001, Part001.pickAccent,
      Part001.applyStyle.
    split.
    + intros Ha. rewrite Ha.
      destruct (tab_chromeTabUrl t) as [url|]; [|reflexivity].
      destruct (negb (Part001.truthy (Part001.isInternalPage url)));
        [|reflexivity].
      destruct (tab_img t) as [image|]; [|reflexivity].
      destruct (getPalette image); reflexivity.
    + intros image -> ->.
      destruct (tab_chromeTabUrl t) as [url|]; reflexivity.
  - intros Hv. unfold viewJs.
    induction tabs as [|t tabs IH]; simpl; [constructor|].
    unfold runsJs, restyleJs, colourJs, abortsJs, ColorTabsJs.applyStyle.
    rewrite Hv.
    destruct (tab_img t) as [image|] eqn:Hi.
    + destruct (getPalette image) as [|first rest] eqn:Hg.
      * constructor; [|exact IH]. intros _ Hp. exfalso.
        first [exact (Hp image Hi Hg) | exact (Hp image eq_refl Hg)].
      * constructor; [|exact IH]. intros Ha _. rewrite Ha.
        eexists _, _. unfold set_color, set_backgroundColor.
        cbn [snd tab_active tab_img tab_chromeTabUrl style_backgroundColor].
        rewrite Ha, Hi. reflexivity.
    + constructor; [|exact IH]. intros Ha _. rewrite Ha.
      eexists _, _. unfold set_color, set_backgroundColor.
      cbn [snd tab_active tab_img tab_chromeTabUrl style_backgroundColor].
      rewrite Ha, Hi. reflexivity.
  - intros Hv before tab after -> Hi. unfold viewJs.
    induction before as [|b before (before' & Hl & IH)]; simpl.
    + unfold runsJs, colourJs, abortsJs. rewrite Hi, Hv. simpl.
      exists []. split; reflexivity.
    + destruct (runsJs b (getPropertyValue "--colorBg" browser)).
      * exists (restyleJs b (getPropertyValue "--colorBg" browser) :: before').
        simpl. rewrite Hl, IH. split; reflexivity.
      * destruct (abortsJs b (getPropertyValue "--colorBg" browser)).
        -- exists (b :: before). split; reflexivity.
        -- exists (b :: before'). simpl. rewrite Hl, IH. split; reflexivity.
Qed.

(** X6. In part_000 (colouring allowed) and part_001, a tab whose chrome tab
    is not found is left as it was, and the recompute treats the other tabs
    and [#browser] as if that tab were not in the strip. *)
Theorem recompute_skips_tab_without_chrome_tab
    (Ch : Chroma) (theme : Theme) (browser : StyleProps)
    (before after : list Tab) (tab : Tab) :
  tab_chromeTabUrl tab = None ->
  (accentFromPage theme && negb (transparencyTabs theme) = true ->
   Part000.colorTabs theme browser (before ++ tab :: after)
   = (fst (Part000.colorTabs theme browser (before ++ after)),
      firstn (length before) (snd (Part000.colorTabs theme browser (before ++ after)))
      ++ tab
      :: skipn (length before) (snd (Part000.colorTabs theme browser (before ++ after))))) /\
  Part001.colorTabs theme browser (before ++ tab :: after)
  = (fst (Part001.colorTabs theme browser (before ++ after)),
     firstn (length before) (snd (Part001.colorTabs theme browser (before ++ after)))
     ++ tab
     :: skipn (length before) (snd (Part001.colorTabs theme browser (before ++ after)))).
Proof.
  intros Hu.
  assert (Hcut : forall (g : Tab -> Tab),
            g tab = tab ->
            map g (before ++ tab :: after)
            = firstn (length before) (map g (before ++ after))
              ++ tab :: skipn (length before) (map g (before ++ after))).
  { intros g Hg. rewrite !List.map_app. simpl. rewrite Hg.
    rewrite <- (List.length_map g before).
    rewrite List.firstn_app, List.skipn_app, List.firstn_all, List.skipn_all.
    rewrite Nat.sub_diag. simpl. rewrite app_nil_r. reflexivity. }
  split.
  - intros Hallowed. unfold Part000.colorTabs. rewrite Hallowed.
    pose proof (part000_shape (accentOnWindow theme)
                  (chroma_css (colorAccentBg theme))
                  (accentSaturationLimit theme)) as Hs.
    rewrite !(forEachTab_shape _ _ _ _ _ _ _ browser Hs). cbn [fst snd].
    f_equal.
    + rewrite !lastAccent_app. cbn [lastAccent]. unfold runs000 at 2.
      rewrite Hu. destruct (lastAccent _ _ after _); reflexivity.
    + apply Hcut. unfold restyleTab, runs000. rewrite Hu. reflexivity.
  - unfold Part001.colorTabs.
    pose proof (part001_shape theme) as Hs.
    rewrite !(forEachTab_shape _ _ _ _ _ _ _ browser Hs). cbn [fst snd].
    f_equal.
    + rewrite !lastAccent_app. cbn [lastAccent].
      assert (Hr : runs001 theme tab tt = false)
        by (unfold runs001, colour001; rewrite Hu; reflexivity).
      rewrite Hr. destruct (lastAccent _ _ after _); reflexivity.
    + apply Hcut. unfold restyleTab, runs001, colour001. rewrite Hu. reflexivity.
Qed.

Lemma recompute_skips_tab_without_chrome_tab_witness :
  @Part001.colorTabs Swatch.chroma (mkTheme true false false "#39F" 1) ∅
    ([webTab (Some redFavicon) false]
     ++ mkTab false (Some redFavicon) None None None
     :: [webTab None false])
  = (∅,
     [mkTab false (Some redFavicon) (Some "https://example.org/"%string)
        (Some "rgb(255,0,0)"%string) (Some "#FFF"%string);
      mkTab false (Some redFavicon) None None None;
      mkTab false None (Some "https://example.org/"%string)
        (Some "#39F"%string) (Some "#FFF"%string)]).
Proof.
  refine (proj2 (recompute_skips_tab_without_chrome_tab Swatch.chroma
                   (mkTheme true false false "#39F" 1) ∅
                   [webTab (Some redFavicon) false] [webTab None false]
                   (mkTab false (Some redFavicon) None None None) eq_refl)).
Defined.

(* ------------------------------------------------------------------ *)
(** ** Tab and theme lookup                                            *)
(* ------------------------------------------------------------------ *)

Lemma groupIs_false (group : option string) (groupId : string) :
  groupIs group groupId = false <-> group <> Some groupId.
Proof.
  unfold groupIs. destruct group as [g|]; [|split; [discriminate | reflexivity]].
  rewrite String.eqb_neq. split; congruence.
Qed.

Lemma length_slice (n : nat) (s : string) :
  String.length (slice n s) = (String.length s - n)%nat.
Proof.
  revert s. induction n as [|n IH]; intros s; simpl.
  - lia.
  - destruct s as [|a s]; simpl; [reflexivity | apply IH].
Qed.

(** X7. [#getFirstChromeTabInGroup] parses the tabs of the window in order
    and stops at the first member of the group: tabs after it are never
    parsed, a tab before it whose [vivExtData] cannot be parsed makes the
    lookup throw even when a member follows, and a window without a member
    gives [undefined]. *)
Theorem group_lookup_first_member_or_exception
    (parseGroup : string -> option (option string)) (groupId : string)
    (before after : list ChromeTab) (tab : ChromeTab) :
  List.Forall
    (fun t => exists group,
       parseGroup (ct_vivExtData t) = Some group /\ group <> Some groupId)
    before ->
  getFirstChromeTabInGroup parseGroup groupId before = Value None /\
  (parseGroup (ct_vivExtData tab) = Some (Some groupId) ->
   getFirstChromeTabInGroup parseGroup groupId (before ++ tab :: after)
   = Value (Some tab)) /\
  (parseGroup (ct_vivExtData tab) = None ->
   getFirstChromeTabInGroup parseGroup groupId (before ++ tab :: after)
   = Thrown).
Proof.
  intros H. induction H as [|t before (group & Hp & Hg) _ IH]; simpl.
  - split; [reflexivity|]. split; intros ->; [|reflexivity].
    simpl. rewrite String.eqb_refl. reflexivity.
  - rewrite Hp. apply groupIs_false in Hg. rewrite Hg. exact IH.
Qed.

Lemma group_lookup_first_member_or_exception_witness :
  getFirstChromeTabInGroup groupOfText "g1"
    ([mkChromeTab "https://a.example/" "{}";
      mkChromeTab "https://b.example/" "g0"]
     ++ mkChromeTab "https://c.example/" ""
     :: [mkChromeTab "https://d.example/" "g1"])
  = Thrown.
Proof.
  refine (proj2 (proj2 (group_lookup_first_member_or_exception groupOfText "g1"
            [mkChromeTab "https://a.example/" "{}";
             mkChromeTab "https://b.example/" "g0"]
            [mkChromeTab "https://d.example/" "g1"]
            (mkChromeTab "https://c.example/" "") _)) eq_refl).
  constructor; [exists None; split; [reflexivity | discriminate]|].
  constructor; [exists (Some "g0"%string); split; [reflexivity | discriminate]|].
  constructor.
Defined.

(** X8. A [data-id] shorter than 20 characters (an id shorter than 16 after
    the 4-character prefix is cut) is resolved by [chrome.tabs.get] alone,
    whatever the [vivExtData] of the window's tabs; a longer one is resolved
    by the group search alone. *)
Theorem data_id_lookup_by_length
    (parseGroup : string -> option (option string))
    (tabsGet : string -> option ChromeTab)
    (dataId : string) (tabs : list ChromeTab) :
  ((String.length dataId < 20)%nat ->
   chromeTabUrl parseGroup tabsGet dataId tabs
   = option_map ct_url (tabsGet (getTabId dataId))) /\
  ((20 <= String.length dataId)%nat ->
   chromeTabUrl parseGroup tabsGet dataId tabs
   = match getFirstChromeTabInGroup parseGroup (getTabId dataId) tabs with
     | Value (Some chromeTab) => Some (ct_url chromeTab)
     | Value None => None
     | Thrown => None
     end).
Proof.
  unfold chromeTabUrl, getChromeTab, getTabId. rewrite length_slice.
  split; intros H.
  - destruct (String.length dataId - 4 <? 16)%nat eqn:E.
    + destruct (tabsGet (slice 4 dataId)); reflexivity.
    + apply Nat.ltb_ge in E. lia.
  - destruct (String.length dataId - 4 <? 16)%nat eqn:E.
    + apply Nat.ltb_lt in E. lia.
    + reflexivity.
Qed.

Lemma data_id_lookup_by_length_witness :
  chromeTabUrl groupOfText tabSeven "tab-7" [mkChromeTab "https://c.example/" ""]
  = Some "https://example.org/"%string.
Proof.
  refine (proj1 (data_id_lookup_by_length groupOfText tabSeven "tab-7"
                   [mkChromeTab "https://c.example/" ""]) _).
  simpl. lia.
Defined.

Lemma find_none_iff {X : Type} (p : X -> bool) (l : list X) :
  find p l = None <-> forall x, In x l -> p x = false.
Proof.
  induction l as [|a l IH]; simpl.
  - split; [intros _ x [] | reflexivity].
  - destruct (p a) eqn:E.
    + split; [discriminate|]. intros H. rewrite H in E by (left; reflexivity).
      discriminate.
    + rewrite IH. split.
      * intros H x [<-|Hx]; [exact E | apply H; exact Hx].
      * intros H x Hx. apply H. right. exact Hx.
Qed.

Lemma find_app_split {X : Type} (p : X -> bool) (l1 l2 : list X) :
  find p (l1 ++ l2)
  = match find p l1 with
    | Some x => Some x
    | None => find p l2
    end.
Proof.
  induction l1 as [|a l1 IH]; simpl; [reflexivity|].
  destruct (p a); [reflexivity | exact IH].
Qed.

Lemma find_some_of {X : Type} (p : X -> bool) (l : list X) (x : X) :
  In x l -> p x = true -> exists y, find p l = Some y /\ In y l /\ p y = true.
Proof.
  intros Hx Hp. destruct (find p l) as [y|] eqn:E.
  - exists y. apply List.find_some in E. tauto.
  - rewrite find_none_iff in E. rewrite (E x Hx) in Hp. discriminate.
Qed.

(** X9. [#getCurrentTheme] gives a system theme with the current id when
    there is one, even if a user theme has the same id, and otherwise a user
    theme with that id; when no theme has the id, [#colorTabs] of part_000
    throws before any write and that of part_001 writes nothing. *)
Theorem current_theme_system_before_user
    (Ch : Chroma) (themeId : string) (system user : list StoredTheme)
    (browser : StyleProps) (tabs : list Tab) :
  (forall s, In s system -> theme_id s = themeId ->
     exists theme,
       getCurrentTheme themeId system user = Some theme /\
       In theme system /\ theme_id theme = themeId) /\
  ((forall s, In s system -> theme_id s <> themeId) ->
   forall u, In u user -> theme_id u = themeId ->
     exists theme,
       getCurrentTheme themeId system user = Some theme /\
       In theme user /\ theme_id theme = themeId) /\
  ((forall t, In t (system ++ user) -> theme_id t <> themeId) ->
   getCurrentTheme themeId system user = None /\
   WithPrefs.colorTabs000 themeId system user browser tabs = Thrown /\
   WithPrefs.colorTabs001 themeId system user browser tabs = Value (browser, tabs)).
Proof.
  unfold getCurrentTheme. rewrite find_app_split. split; [|split].
  - intros s Hs Hid.
    destruct (find_some_of (fun theme => String.eqb (theme_id theme) themeId)
                system s Hs) as (y & -> & Hy & Hp).
    + apply String.eqb_eq; exact Hid.
    + exists y. apply String.eqb_eq in Hp. auto.
  - intros Hnone u Hu Hid.
    assert (E : find (fun theme => String.eqb (theme_id theme) themeId) system = None).
    { apply find_none_iff. intros x Hx. apply String.eqb_neq, Hnone, Hx. }
    rewrite E.
    destruct (find_some_of (fun theme => String.eqb (theme_id theme) themeId)
                user u Hu) as (y & -> & Hy & Hp).
    + apply String.eqb_eq; exact Hid.
    + exists y. apply String.eqb_eq in Hp. auto.
  - intros Hnone.
    assert (E : find (fun theme => String.eqb (theme_id theme) themeId)
                     (system ++ user) = None).
    { apply find_none_iff. intros x Hx. apply String.eqb_neq, Hnone, Hx. }
    unfold WithPrefs.colorTabs000, WithPrefs.colorTabs001, getCurrentTheme.
    rewrite E. rewrite find_app_split in E. rewrite E. auto.
Qed.

Lemma current_theme_system_before_user_witness :
  exists theme,
    getCurrentTheme "dark"
      [mkStoredTheme "light" (mkTheme true false false "#FFF" 1);
       mkStoredTheme "dark" (mkTheme true false false "#111" 1)]
      [mkStoredTheme "dark" (mkTheme false false false "#222" 0)]
    = Some theme /\
    In theme [mkStoredTheme "light" (mkTheme true false false "#FFF" 1);
              mkStoredTheme "dark" (mkTheme true false false "#111" 1)] /\
    theme_id theme = "dark"%string.
Proof.
  refine (proj1 (current_theme_system_before_user Swatch.chroma "dark"
            [mkStoredTheme "light" (mkTheme true false false "#FFF" 1);
             mkStoredTheme "dark" (mkTheme true false false "#111" 1)]
            [mkStoredTheme "dark" (mkTheme false false false "#222" 0)]
            ∅ [])
            (mkStoredTheme "dark" (mkTheme true false false "#111" 1)) _ eq_refl).
  right. left. reflexivity.
Defined.

(* ------------------------------------------------------------------ *)
(** ** More on the palette                                             *)
(* ------------------------------------------------------------------ *)

(** X10. The colour a tab is painted with, the first of the palette, occurs
    in at least as many pixels as any other colour that passes the filter,
    and among the colours with that many pixels it is the one met first in
    the scan. *)
Theorem palette_first_colour_is_dominant
    (pixelData : list Z) (first : rgb) (rest : list rgb) :
  getPalette pixelData = first :: rest ->
  In first (pixelsOf pixelData) /\ skipped first = false /\
  forall c,
    In c (pixelsOf pixelData) -> skipped c = false -> c <> first ->
    occurrences c (pixelsOf pixelData) < occurrences first (pixelsOf pixelData) \/
    (occurrences c (pixelsOf pixelData) = occurrences first (pixelsOf pixelData) /\
     (firstIndex first (pixelsOf pixelData) < firstIndex c (pixelsOf pixelData))%nat).
Proof.
  intros E.
  assert (Hin : In first (getPalette pixelData)) by (rewrite E; left; reflexivity).
  apply getPalette_In in Hin as [Hin Hs]. split; [exact Hin|]. split; [exact Hs|].
  intros c Hc Hsc Hne.
  pose proof (sortedColors_ranked pixelData) as Hsorted.
  rewrite getPalette_firstn in E.
  assert (HcL : In c (colorsOf (sortPalette (scanPixels pixelData))))
    by (apply sortedColors_In; split; assumption).
  destruct (colorsOf (sortPalette (scanPixels pixelData))) as [|x L]; [contradiction|].
  simpl in E. injection E as -> _.
  inversion Hsorted as [|? ? _ Hall]; subst.
  destruct HcL as [->|HcL]; [congruence|].
  rewrite List.Forall_forall in Hall.
  destruct (Hall c HcL) as [H|[H1 H2]]; [left; lia | right; split; [lia | exact H2]].
Qed.

Lemma palette_first_colour_is_dominant_witness :
  In tieFirst (pixelsOf tieFavicon) /\ skipped tieFirst = false /\
  forall c,
    In c (pixelsOf tieFavicon) -> skipped c = false -> c <> tieFirst ->
    occurrences c (pixelsOf tieFavicon) < occurrences tieFirst (pixelsOf tieFavicon) \/
    (occurrences c (pixelsOf tieFavicon) = occurrences tieFirst (pixelsOf tieFavicon) /\
     (firstIndex tieFirst (pixelsOf tieFavicon) < firstIndex c (pixelsOf tieFavicon))%nat).
Proof.
  exact (palette_first_colour_is_dominant tieFavicon tieFirst
           [(1, 2, 3); (7, 7, 7)] eq_refl).
Defined.

(** X11. No colour left out of the palette outranks a returned one: when a
    colour that passes the filter is not returned, the palette has 10
    colours and each of them occurs in more pixels than the colour left out,
    or in as many and earlier in the scan. *)
Theorem palette_keeps_the_ten_best
    (pixelData : list Z) (c d : rgb) :
  In c (getPalette pixelData) ->
  In d (pixelsOf pixelData) -> skipped d = false ->
  ~ In d (getPalette pixelData) ->
  length (getPalette pixelData) = 10%nat /\
  (occurrences d (pixelsOf pixelData) < occurrences c (pixelsOf pixelData) \/
   (occurrences d (pixelsOf pixelData) = occurrences c (pixelsOf pixelData) /\
    (firstIndex c (pixelsOf pixelData) < firstIndex d (pixelsOf pixelData))%nat)).
Proof.
  intros Hc Hd Hsd Hout.
  pose proof (sortedColors_ranked pixelData) as Hsorted.
  assert (HdL : In d (colorsOf (sortPalette (scanPixels pixelData))))
    by (apply sortedColors_In; split; assumption).
  rewrite getPalette_firstn in Hc, Hout |- *.
  set (L := colorsOf (sortPalette (scanPixels pixelData))) in *.
  set (n := Nat.min 10 (length L)) in *.
  rewrite <- (firstn_skipn n L) in HdL, Hsorted.
  apply List.in_app_or in HdL as [HdL|HdL]; [contradiction|].
  split.
  - rewrite List.length_firstn.
    assert (Hlen : (n < length L)%nat).
    { destruct (Nat.lt_ge_cases n (length L)) as [H|H]; [exact H|].
      rewrite List.skipn_all2 in HdL by exact H. contradiction. }
    unfold n in *. lia.
  - destruct (StronglySorted_app_cross _ _ _ c d Hsorted Hc HdL) as [H|[H1 H2]];
      [left; lia | right; split; [lia | exact H2]].
Qed.

Lemma palette_keeps_the_ten_best_witness :
  length (getPalette
            (flat_map (fun n => [Z.of_nat n + 1; 5; 5; 255]) (seq 0 11)
             ++ [1; 5; 5; 255])) = 10%nat.
Proof.
  refine (proj1 (palette_keeps_the_ten_best
            (flat_map (fun n => [Z.of_nat n + 1; 5; 5; 255]) (seq 0 11)
             ++ [1; 5; 5; 255])
            (1, 5, 5) (11, 5, 5) _ _ _ _)).
  - vm_compute. left. reflexivity.
  - vm_compute. do 10 right. left. reflexivity.
  - reflexivity.
  - vm_compute. intuition discriminate.
Defined.

(** X12. The palette is empty exactly when every pixel is filtered out: a
    single pixel with a non-zero red channel and a channel of at most 240 is
    enough for a favicon colour to be used. *)
Theorem palette_empty_iff_all_pixels_filtered (pixelData : list Z) :
  getPalette pixelData = [] <->
  (forall pixelIndex red green blue,
     (pixelIndex < length pixelData / 4)%nat ->
     pixelAt pixelData pixelIndex = (red, green, blue) ->
     red = 0 \/ (red > 240 /\ green > 240 /\ blue > 240)).
Proof.
  split.
  - intros E i red green blue Hi Hp.
    apply skipped_iff. destruct (skipped (red, green, blue)) eqn:Hs; [reflexivity|].
    exfalso.
    assert (Hin : In (red, green, blue) (colorsOf (scanPixels pixelData))).
    { apply (scanned_colors _ _ (scanPixels_scanned pixelData)).
      split; [|exact Hs]. apply pixelsOf_In. exists i. split; assumption. }
    pose proof (getPalette_length pixelData) as Hlen.
    rewrite E in Hlen. simpl in Hlen.
    destruct (colorsOf (scanPixels pixelData)); [contradiction | simpl in Hlen; lia].
  - intros H. unfold getPalette, scanPixels.
    rewrite fold_visit_all_skipped; [reflexivity|].
    apply List.Forall_forall. intros [[r g] b] Hin.
    apply pixelsOf_In in Hin as (i & Hi & E).
    apply skipped_iff. eapply H; eassumption.
Qed.

Lemma pixelAt_ext (data data' : list Z) (i : nat) :
  (forall k, (k mod 4 <> 3)%nat -> nth k data 0 = nth k data' 0) ->
  pixelAt data i = pixelAt data' i.
Proof.
  intros H. unfold pixelAt, byteAt.
  rewrite (H (4 * i)%nat), (H (4 * i + 1)%nat), (H (4 * i + 2)%nat); [reflexivity | | |].
  - rewrite Nat.add_comm, Nat.mul_comm, Nat.Div0.mod_add. cbn. lia.
  - rewrite Nat.add_comm, Nat.mul_comm, Nat.Div0.mod_add. cbn. lia.
  - rewrite Nat.mul_comm, Nat.Div0.mod_mul. lia.
Qed.

(** X13. The alpha channel is never read: two buffers of the same length
    that agree on every red, green and blue byte give the same palette, so a
    fully transparent pixel counts like an opaque one. *)
Theorem palette_ignores_alpha (pixelData pixelData' : list Z) :
  length pixelData = length pixelData' ->
  (forall k, (k mod 4 <> 3)%nat -> nth k pixelData 0 = nth k pixelData' 0) ->
  getPalette pixelData = getPalette pixelData'.
Proof.
  intros Hlen H.
  assert (E : pixelsOf pixelData = pixelsOf pixelData').
  { unfold pixelsOf. rewrite Hlen. apply List.map_ext. intros i.
    apply pixelAt_ext. exact H. }
  unfold getPalette, scanPixels. rewrite E. reflexivity.
Qed.

Lemma palette_ignores_alpha_witness :
  getPalette [200; 10; 10; 255;  0; 9; 9; 255]
  = getPalette [200; 10; 10; 0;  0; 9; 9; 17].
Proof.
  refine (palette_ignores_alpha [200; 10; 10; 255;  0; 9; 9; 255]
                                [200; 10; 10; 0;  0; 9; 9; 17] eq_refl _).
  intros k Hk.
  do 8 (destruct k as [|k]; [first [reflexivity | exfalso; apply Hk; reflexivity]|]).
  destruct k; reflexivity.
Defined.
